(** * OrgMind graph explorer: the [GraphViewer] component

    A shallow embedding of
    [frontend/src/components/graph/graph-viewer.tsx].  The component keeps
    its data in React state hooks; here the hooks are the fields of one
    record, [ViewerState], and every handler is a function on that record.
    The asynchronous [loadGraph] is split at its single [await] into the
    part that runs when it is called and the part that runs when the
    promise settles.

    JavaScript numbers are idealised as real numbers: [Math.min],
    [Math.max], [Math.cos], [Math.sin] and [Math.PI] are [Rmin], [Rmax],
    [cos], [sin] and [PI].  Arrays are lists.  The [Record<string, _>]
    built by [calculateNodePositions] is a finite map that holds what the
    loop wrote under each id; reading it back as JavaScript reads a plain
    object (own keys first, then what every object inherits) is
    [readPosition]. *)

From Stdlib Require Import Reals Lra.
From stdpp Require Import gmap strings list fin_maps.

(** ** Data model *)

(** Modelled from the spec: the types [GraphNode], [GraphEdge] and
    [GraphData] are imported from [@/lib/api-client], which is not part of
    the sources at hand.  Section 3 of the specification gives their shape,
    and the component reads exactly these fields. *)
Module GraphNode.
Record t : Type := Build {
  id : string;
  type : string;
  label : string;
  properties : list (string * string);
}.
End GraphNode.

Module GraphEdge.
Record t : Type := Build {
  id : string;
  source : string;
  target : string;
  type : string;
}.
End GraphEdge.

Module GraphData.
Record t : Type := Build {
  nodes : list GraphNode.t;
  edges : list GraphEdge.t;
}.
End GraphData.

Module Point.
Record t : Type := Build { x : R; y : R }.
End Point.

#[global] Instance GraphNode_eq_dec : EqDecision GraphNode.t.
Proof. solve_decision. Defined.

#[global] Instance GraphEdge_eq_dec : EqDecision GraphEdge.t.
Proof. solve_decision. Defined.

(** The ids of the nodes and of the edges of a graph, in array order. *)
Definition nodeIds (g : GraphData.t) : list string :=
  GraphNode.id <$> GraphData.nodes g.

Definition edgeIds (g : GraphData.t) : list string :=
  GraphEdge.id <$> GraphData.edges g.

(** ** Connected nodes *)

(** [getConnectedNodes]: keep the edges that touch [nodeId], then take the
    other endpoint of each. *)
Definition touches (nodeId : string) (e : GraphEdge.t) : Prop :=
  GraphEdge.source e = nodeId ∨ GraphEdge.target e = nodeId.

#[global] Instance touches_dec nodeId e : Decision (touches nodeId e).
Proof. unfold touches. apply _. Defined.

Definition otherEnd (nodeId : string) (e : GraphEdge.t) : string :=
  if decide (GraphEdge.source e = nodeId)
  then GraphEdge.target e
  else GraphEdge.source e.

Definition getConnectedNodes (graphData : GraphData.t) (nodeId : string)
  : list string :=
  otherEnd nodeId <$> filter (touches nodeId) (GraphData.edges graphData).

Definition selfLoop (nodeId : string) (e : GraphEdge.t) : Prop :=
  GraphEdge.source e = nodeId ∧ GraphEdge.target e = nodeId.

#[global] Instance selfLoop_dec nodeId e : Decision (selfLoop nodeId e).
Proof. unfold selfLoop. apply _. Defined.

(** Number of occurrences of a string in a list of ids. *)
Definition occurrences (k : string) (l : list string) : nat :=
  length (filter (λ k', k' = k) l).

(** ** Component state *)

Open Scope R_scope.

(** What a rejected promise carries: the [catch] clause tells an [Error]
    object, whose [message] it shows, from any other thrown value. *)
Inductive Thrown : Type :=
| ThrownError (message : string)
| ThrownOther.

(** How the promise returned by [api.graph.get] settles. *)
Inductive FetchOutcome : Type :=
| Resolved (data : GraphData.t)
| Rejected (err : Thrown).

(** The eight [useState] hooks of the component. *)
Record ViewerState : Type := mkViewerState {
  graphData : GraphData.t;
  loading : bool;
  error : option string;
  selectedNode : option GraphNode.t;
  scale : R;
  position : Point.t;
  isDragging : bool;
  dragStart : Point.t;
}.

Definition emptyGraph : GraphData.t := GraphData.Build [] [].

Definition origin : Point.t := Point.Build 0 0.

Definition initialState : ViewerState :=
  mkViewerState emptyGraph false None None 1 origin false origin.

(** The state setters. *)
Definition setGraphData (data : GraphData.t) (s : ViewerState) : ViewerState :=
  mkViewerState data (loading s) (error s) (selectedNode s) (scale s)
    (position s) (isDragging s) (dragStart s).

Definition setLoading (b : bool) (s : ViewerState) : ViewerState :=
  mkViewerState (graphData s) b (error s) (selectedNode s) (scale s)
    (position s) (isDragging s) (dragStart s).

Definition setError (e : option string) (s : ViewerState) : ViewerState :=
  mkViewerState (graphData s) (loading s) e (selectedNode s) (scale s)
    (position s) (isDragging s) (dragStart s).

Definition setSelectedNode (n : option GraphNode.t) (s : ViewerState)
  : ViewerState :=
  mkViewerState (graphData s) (loading s) (error s) n (scale s)
    (position s) (isDragging s) (dragStart s).

Definition setScale (f : R → R) (s : ViewerState) : ViewerState :=
  mkViewerState (graphData s) (loading s) (error s) (selectedNode s)
    (f (scale s)) (position s) (isDragging s) (dragStart s).

Definition setPosition (p : Point.t) (s : ViewerState) : ViewerState :=
  mkViewerState (graphData s) (loading s) (error s) (selectedNode s) (scale s)
    p (isDragging s) (dragStart s).

Definition setIsDragging (b : bool) (s : ViewerState) : ViewerState :=
  mkViewerState (graphData s) (loading s) (error s) (selectedNode s) (scale s)
    (position s) b (dragStart s).

Definition setDragStart (p : Point.t) (s : ViewerState) : ViewerState :=
  mkViewerState (graphData s) (loading s) (error s) (selectedNode s) (scale s)
    (position s) (isDragging s) p.

(** ** Loading a neighbourhood *)

(** [loadGraph] up to its [await]: raise the loading flag, clear the
    error, send the request. *)
Definition loadGraph_call (s : ViewerState) : ViewerState :=
  setError None (setLoading true s).

(** The message of the [catch] clause. *)
Definition errorMessage (err : Thrown) : string :=
  match err with
  | ThrownError message => message
  | ThrownOther => "Failed to load graph"
  end.

(** [loadGraph] after its [await]: a resolved promise stores the payload,
    a rejected one stores the message; [finally] lowers the loading
    flag. *)
Definition loadGraph_settle (outcome : FetchOutcome) (s : ViewerState)
  : ViewerState :=
  match outcome with
  | Resolved data => setLoading false (setGraphData data s)
  | Rejected err => setLoading false (setError (Some (errorMessage err)) s)
  end.

(** A whole [loadGraph] with nothing happening during the [await]. *)
Definition loadGraph (outcome : FetchOutcome) (s : ViewerState) : ViewerState :=
  loadGraph_settle outcome (loadGraph_call s).

(** ** Zoom and fit *)

Definition handleZoomIn (s : ViewerState) : ViewerState :=
  setScale (λ s', Rmin (s' * 1.2) 3) s.

Definition handleZoomOut (s : ViewerState) : ViewerState :=
  setScale (λ s', Rmax (s' / 1.2) 0.3) s.

Definition handleFit (s : ViewerState) : ViewerState :=
  setPosition origin (setScale (λ _, 1) s).

(** ** Dragging *)

(** Where a mouse event was aimed, as far as [handleMouseDown] can tell:
    at the container itself, at something inside an element of class
    [graph-canvas], or elsewhere. *)
Inductive EventTarget : Type :=
| OnContainer
| InsideCanvas
| Elsewhere.

Record MouseEvent : Type := mkMouseEvent {
  target : EventTarget;
  clientX : R;
  clientY : R;
}.

(** The guard of [handleMouseDown]:
    [e.target === containerRef.current || e.target.closest('.graph-canvas')]. *)
Definition onCanvas (e : MouseEvent) : bool :=
  match target e with
  | OnContainer | InsideCanvas => true
  | Elsewhere => false
  end.

Definition handleMouseDown (e : MouseEvent) (s : ViewerState) : ViewerState :=
  if onCanvas e then
    setDragStart
      (Point.Build (clientX e - Point.x (position s))
                   (clientY e - Point.y (position s)))
      (setIsDragging true s)
  else s.

Definition handleMouseMove (e : MouseEvent) (s : ViewerState) : ViewerState :=
  if isDragging s then
    setPosition
      (Point.Build (clientX e - Point.x (dragStart s))
                   (clientY e - Point.y (dragStart s)))
      s
  else s.

Definition handleMouseUp (s : ViewerState) : ViewerState :=
  setIsDragging false s.

(** The two states of the drag gesture, read off [isDragging]. *)
Inductive PanState : Type := Idle | Panning.

Definition panState (s : ViewerState) : PanState :=
  if isDragging s then Panning else Idle.

(** ** Selection and expansion *)

Definition handleNodeClick (node : GraphNode.t) (s : ViewerState)
  : ViewerState :=
  setSelectedNode (Some node) s.

(** [handleNodeDoubleClick] calls [loadGraph(node.id)]: the state changes
    as for any other call, whatever the node. *)
Definition handleNodeDoubleClick (node : GraphNode.t) (s : ViewerState)
  : ViewerState :=
  loadGraph_call s.

(** The expand action carried through: the double click and then the
    arrival of the answer. *)
Definition expand (node : GraphNode.t) (outcome : FetchOutcome)
  (s : ViewerState) : ViewerState :=
  loadGraph_settle outcome (handleNodeDoubleClick node s).

(** ** Layout *)

(** The container element behind [containerRef], of which the layout reads
    the integer sizes [clientWidth] and [clientHeight]; the ref is empty
    until the element is mounted. *)
Record Container : Type := mkContainer {
  clientWidth : Z;
  clientHeight : Z;
}.

(** [n || fallback] for a number that may be missing: a missing value and
    zero are both falsy. *)
Definition orDefault (n : option Z) (fallback : Z) : Z :=
  match n with
  | Some v => if decide (v = 0%Z) then fallback else v
  | None => fallback
  end.

Definition layoutWidth (containerRef : option Container) : R :=
  IZR (orDefault (clientWidth <$> containerRef) 800).

Definition layoutHeight (containerRef : option Container) : R :=
  IZR (orDefault (clientHeight <$> containerRef) 600).

(** The body of the [forEach] callback: the point given to the node at
    [index] among [nodeCount] nodes. *)
Definition circlePoint (containerRef : option Container)
  (nodeCount index : nat) : Point.t :=
  let width := layoutWidth containerRef in
  let height := layoutHeight containerRef in
  let centerX := width / 2 in
  let centerY := height / 2 in
  let angle := (2 * PI * INR index) / INR nodeCount in
  let radius := Rmin width height * 0.3 in
  Point.Build (centerX + radius * cos angle) (centerY + radius * sin angle).

(** The [forEach] loop, from [index] on: each node writes its point under
    its id, so a later node with the same id overwrites an earlier one. *)
Fixpoint placeNodes (containerRef : option Container) (nodeCount index : nat)
  (nodes : list GraphNode.t) (positions : gmap string Point.t)
  : gmap string Point.t :=
  match nodes with
  | [] => positions
  | node :: rest =>
      placeNodes containerRef nodeCount (S index) rest
        (<[GraphNode.id node := circlePoint containerRef nodeCount index]>
           positions)
  end.

(** [calculateNodePositions], run on every render: the positions are
    computed afresh from the current [graphData].  The map holds the point
    last written under each id.  One id is special in JavaScript: the
    write [positions["__proto__"] = point] adds no key to the record but
    makes the point its prototype; the entry of the map under that name
    stands for this prototype (see [readPosition]). *)
Definition calculateNodePositions (containerRef : option Container)
  (graphData : GraphData.t) : gmap string Point.t :=
  placeNodes containerRef (length (GraphData.nodes graphData)) 0
    (GraphData.nodes graphData) ∅.

(** The layout the user sees in a given state, for the container as the
    ref holds it at that render.  The size of the container is not part of
    the state and may differ from one render to the next: the window may
    be resized, and the details panel, when a node is selected, takes its
    width from the canvas. *)
Definition nodePositions (containerRef : option Container) (s : ViewerState)
  : gmap string Point.t :=
  calculateNodePositions containerRef (graphData s).

(** ** Rendering *)

(** The names every plain object inherits from [Object.prototype]. *)
Definition objectPrototypeNames : list string :=
  ["constructor"; "__defineGetter__"; "__defineSetter__"; "hasOwnProperty";
   "__lookupGetter__"; "__lookupSetter__"; "isPrototypeOf";
   "propertyIsEnumerable"; "toString"; "valueOf"; "__proto__";
   "toLocaleString"].

(** What reading [nodePositions[k]] can yield: a point (written under the
    key, or installed as the prototype and read back under [__proto__]),
    a coordinate of a point installed as the prototype, something
    inherited from [Object.prototype] (a function, or that object itself),
    or [undefined]. *)
Inductive Read : Type :=
| ReadPoint (p : Point.t)
| ReadNumber (v : R)
| ReadInherited
| ReadUndefined.

(** [nodePositions[k]] on the plain object the loop has filled: the own
    key first, then the prototype chain.  When a point has been installed
    as the prototype, its [x] and [y] are found before the names of
    [Object.prototype]. *)
Definition readPosition (positions : gmap string Point.t) (k : string)
  : Read :=
  match positions !! k with
  | Some p => ReadPoint p
  | None =>
      let inherited :=
        if decide (k ∈ objectPrototypeNames) then ReadInherited
        else ReadUndefined in
      match positions !! "__proto__" with
      | Some p =>
          if decide (k = "x") then ReadNumber (Point.x p)
          else if decide (k = "y") then ReadNumber (Point.y p)
          else inherited
      | None => inherited
      end
  end.

(** What passes a test such as [if (!pos) return null]: objects and
    functions do, a number does unless it is zero, [undefined] does not. *)
Definition truthy (r : Read) : Prop :=
  match r with
  | ReadPoint _ | ReadInherited => True
  | ReadNumber v => v ≠ 0
  | ReadUndefined => False
  end.

#[global] Instance truthy_dec r : Decision (truthy r).
Proof.
  destruct r as [p|v| |]; cbn.
  - left; exact I.
  - destruct (Req_dec_T v 0); [right; tauto | left; assumption].
  - left; exact I.
  - right; tauto.
Defined.

(** An edge is drawn unless the guard [if (!source || !target) return null]
    stops it. *)
Definition drawable (positions : gmap string Point.t) (e : GraphEdge.t)
  : Prop :=
  truthy (readPosition positions (GraphEdge.source e)) ∧
  truthy (readPosition positions (GraphEdge.target e)).

#[global] Instance drawable_dec positions e : Decision (drawable positions e).
Proof. unfold drawable. apply _. Defined.

Definition drawnEdges (containerRef : option Container) (s : ViewerState)
  : list GraphEdge.t :=
  filter (drawable (nodePositions containerRef s))
    (GraphData.edges (graphData s)).

(** The CSS transform of the canvas,
    [translate(position.x px, position.y px) scale(scale)], as the list of
    its functions. *)
Inductive TransformFunction : Type :=
| Translate (tx ty : R)
| Scale (factor : R).

Definition renderTransform (s : ViewerState) : list TransformFunction :=
  [Translate (Point.x (position s)) (Point.y (position s)); Scale (scale s)].

Definition applyFunction (f : TransformFunction) (p : Point.t) : Point.t :=
  match f with
  | Translate tx ty => Point.Build (Point.x p + tx) (Point.y p + ty)
  | Scale factor => Point.Build (Point.x p * factor) (Point.y p * factor)
  end.

(** A transform list maps a point as the product of its matrices does:
    the rightmost function acts on the point first.  Coordinates are
    relative to the transform origin. *)
Definition applyTransform (fs : list TransformFunction) (p : Point.t)
  : Point.t :=
  foldr applyFunction p fs.

(** Where a point of the graph lands on the screen. *)
Definition toScreen (s : ViewerState) (p : Point.t) : Point.t :=
  applyTransform (renderTransform s) p.

(** Modelled from the spec: the component has no function from screen
    points back to graph points (the browser does the hit testing);
    section 4.3 of the specification defines it as
    [(screenPoint - offset) / scale]. *)
Definition toGraph (s : ViewerState) (q : Point.t) : Point.t :=
  Point.Build ((Point.x q - Point.x (position s)) / scale s)
              ((Point.y q - Point.y (position s)) / scale s).

(** ** Events *)

(** What can happen to the component.  A request is named by a number so
    that a trace can tell which call an answer belongs to; the component
    itself keeps no such number. *)
Inductive Event : Type :=
| LoadGraphCalled (request : nat) (nodeId : string) (depth : nat)
| LoadGraphSettled (request : nat) (outcome : FetchOutcome)
| ZoomInClicked
| ZoomOutClicked
| FitClicked
| MouseDown (e : MouseEvent)
| MouseMove (e : MouseEvent)
| MouseUp
| MouseLeave
| NodeClicked (node : GraphNode.t)
| NodeDoubleClicked (request : nat) (node : GraphNode.t)
| DetailsClosed.

Definition step (s : ViewerState) (ev : Event) : ViewerState :=
  match ev with
  | LoadGraphCalled _ _ _ => loadGraph_call s
  | LoadGraphSettled _ outcome => loadGraph_settle outcome s
  | ZoomInClicked => handleZoomIn s
  | ZoomOutClicked => handleZoomOut s
  | FitClicked => handleFit s
  | MouseDown e => handleMouseDown e s
  | MouseMove e => handleMouseMove e s
  | MouseUp | MouseLeave => handleMouseUp s
  | NodeClicked node => handleNodeClick node s
  | NodeDoubleClicked _ node => handleNodeDoubleClick node s
  | DetailsClosed => setSelectedNode None s
  end.

Definition run (evs : list Event) (s : ViewerState) : ViewerState :=
  fold_left step evs s.

(** The payload of the last successful answer in a trace, if any. *)
Fixpoint lastResolved (evs : list Event) (acc : option GraphData.t)
  : option GraphData.t :=
  match evs with
  | [] => acc
  | LoadGraphSettled _ (Resolved data) :: rest => lastResolved rest (Some data)
  | _ :: rest => lastResolved rest acc
  end.

(** The requests called in a trace, and those whose answer has come. *)
Definition calledRequests (evs : list Event) : list nat :=
  omap (λ ev, match ev with
              | LoadGraphCalled r _ _ | NodeDoubleClicked r _ => Some r
              | _ => None
              end) evs.

Definition settledRequests (evs : list Event) : list nat :=
  omap (λ ev, match ev with
              | LoadGraphSettled r _ => Some r
              | _ => None
              end) evs.

(** Applying payloads one after the other, as successive successful
    loads do. *)
Definition applyPayloads (payloads : list GraphData.t) (s : ViewerState)
  : ViewerState :=
  fold_left (λ s' data, loadGraph (Resolved data) s') payloads s.

(** The zoom range. *)
Definition inZoomRange (v : R) : Prop := 0.3 <= v <= 3.

(** Vocabulary of the drag gesture: the screen point of a mouse event and
    the difference of two points. *)
Definition screenPoint (e : MouseEvent) : Point.t :=
  Point.Build (clientX e) (clientY e).

Definition pointSub (a b : Point.t) : Point.t :=
  Point.Build (Point.x a - Point.x b) (Point.y a - Point.y b).

(** ** Scenario data *)

(** The graph of the first scenario: two nodes and one edge between them. *)
Definition plainNode (k : string) : GraphNode.t := GraphNode.Build k "user" k [].

Definition scenarioGraph : GraphData.t :=
  GraphData.Build [plainNode "n1"; plainNode "n2"]
    [GraphEdge.Build "e1" "n1" "n2" "relates"].

(** Two edges between the same pair of nodes. *)
Definition multiEdgeGraph : GraphData.t :=
  GraphData.Build [plainNode "n1"; plainNode "n2"]
    [GraphEdge.Build "e1" "n1" "n2" "relates";
     GraphEdge.Build "e2" "n1" "n2" "owns"].

Definition selfLoopGraph : GraphData.t :=
  GraphData.Build [plainNode "n1"; plainNode "n2"]
    [GraphEdge.Build "e1" "n1" "n1" "relates";
     GraphEdge.Build "e2" "n1" "n2" "relates";
     GraphEdge.Build "e3" "n1" "n1" "owns"].

(** The neighbourhood the service answers with when n2 is expanded. *)
Definition neighbourhoodOfN2 : GraphData.t :=
  GraphData.Build [plainNode "n2"; plainNode "n3"]
    [GraphEdge.Build "e5" "n2" "n3" "relates"].

(** A payload whose edge e2 points at a node that no payload supplies. *)
Definition danglingPayload : GraphData.t :=
  GraphData.Build [plainNode "n1"]
    [GraphEdge.Build "e2" "n1" "n99" "relates"].

(** Two loads in flight at once, the older one answered last. *)
Definition racingCalls : list Event :=
  [LoadGraphCalled 1 "n1" 2; LoadGraphCalled 2 "n2" 2].

Definition racingTrace : list Event :=
  racingCalls ++
  [LoadGraphSettled 2 (Resolved neighbourhoodOfN2);
   LoadGraphSettled 1 (Resolved scenarioGraph)].

(** The scenario graph with two more nodes behind it, as a later answer
    may deliver it. *)
Definition grownGraph : GraphData.t :=
  GraphData.Build
    [plainNode "n1"; plainNode "n2"; plainNode "n3"; plainNode "n4"]
    [GraphEdge.Build "e1" "n1" "n2" "relates";
     GraphEdge.Build "e3" "n2" "n3" "relates";
     GraphEdge.Build "e4" "n2" "n4" "relates"].

(** ** More of the render *)

(** The node elements: a node is drawn unless the guard
    [if (!pos) return null] stops it. *)
Definition drawnNodes (containerRef : option Container) (s : ViewerState)
  : list GraphNode.t :=
  filter (λ node,
            truthy (readPosition (nodePositions containerRef s)
                      (GraphNode.id node)))
    (GraphData.nodes (graphData s)).

(** [graphData.nodes.find(n => n.id === nodeId)]: the first node that
    carries the id. *)
Definition findNode (nodes : list GraphNode.t) (nodeId : string)
  : option GraphNode.t :=
  List.find (λ n, bool_decide (GraphNode.id n = nodeId)) nodes.

(** The rows under "Connected Nodes" in the details panel: one for each
    connected id that has a node; each row, clicked, selects its node. *)
Definition connectedNodeRows (s : ViewerState) : list GraphNode.t :=
  match selectedNode s with
  | Some node =>
      omap (findNode (GraphData.nodes (graphData s)))
        (getConnectedNodes (graphData s) (GraphNode.id node))
  | None => []
  end.

(** [Math.round]: the nearest integer, halves rounded up. *)
Definition Math_round (v : R) : Z := Int_part (v + 0.5).

(** The percentage shown between the zoom buttons. *)
Definition zoomLabel (s : ViewerState) : Z := Math_round (scale s * 100).

(** The centre and the radius of the circle the layout uses. *)
Definition layoutCenter (containerRef : option Container) : Point.t :=
  Point.Build (layoutWidth containerRef / 2) (layoutHeight containerRef / 2).

Definition layoutRadius (containerRef : option Container) : R :=
  Rmin (layoutWidth containerRef) (layoutHeight containerRef) * 0.3.

(** The sizes a browser reports are never negative. *)
Definition validContainer (containerRef : option Container) : Prop :=
  match containerRef with
  | Some c => (0 ≤ clientWidth c)%Z ∧ (0 ≤ clientHeight c)%Z
  | None => True
  end.

(** ** Gestures and traces *)

(** A run of pointer moves. *)
Definition moveThrough (moves : list MouseEvent) (s : ViewerState)
  : ViewerState :=
  fold_left (λ s' e, handleMouseMove e s') moves s.

(** The events of the zoom buttons and of the mouse on the canvas. *)
Definition isViewportEvent (ev : Event) : bool :=
  match ev with
  | ZoomInClicked | ZoomOutClicked | FitClicked
  | MouseDown _ | MouseMove _ | MouseUp | MouseLeave => true
  | _ => false
  end.

(** The arrival of a successful answer. *)
Definition isResolvedAnswer (ev : Event) : bool :=
  match ev with
  | LoadGraphSettled _ (Resolved _) => true
  | _ => false
  end.

(** A node list in which an id comes twice. *)
Definition repeatedIdGraph : GraphData.t :=
  GraphData.Build
    [plainNode "n1"; plainNode "n2"; GraphNode.Build "n1" "team" "again" []]
    [GraphEdge.Build "e1" "n1" "n2" "relates";
     GraphEdge.Build "e2" "n1" "n99" "relates"].

(** The arrival of any answer, good or bad. *)
Definition isAnswer (ev : Event) : bool :=
  match ev with
  | LoadGraphSettled _ _ => true
  | _ => false
  end.

(** What the canvas overlays: the spinner under [loading &&], the banner
    under [error &&] (an empty message is falsy, as is no message), and
    the invitation to search under
    [graphData.nodes.length === 0 && !loading && !error]. *)
Definition showsSpinner (s : ViewerState) : bool := loading s.

Definition showsError (s : ViewerState) : bool :=
  match error s with
  | Some message => negb (String.eqb message EmptyString)
  | None => false
  end.

Definition showsPlaceholder (s : ViewerState) : bool :=
  bool_decide (length (GraphData.nodes (graphData s)) = 0%nat)
  && negb (loading s) && negb (showsError s).

(** Every edge of the graph has both of its endpoints among the ids of
    the nodes. *)
Definition endpointsClosed (g : GraphData.t) : Prop :=
  ∀ e, e ∈ GraphData.edges g →
       GraphEdge.source e ∈ nodeIds g ∧ GraphEdge.target e ∈ nodeIds g.

(** A graph with one edge to an id no node carries and one to a name that
    every object inherits. *)
Definition inheritedNameGraph : GraphData.t :=
  GraphData.Build [plainNode "n1"; plainNode "n2"]
    [GraphEdge.Build "e1" "n1" "n2" "relates";
     GraphEdge.Build "e2" "n1" "n99" "relates";
     GraphEdge.Build "e3" "n1" "constructor" "relates"].

(** * Properties *)

(** ** Connected nodes *)

Section ConnectedNodes.
Implicit Types (es : list GraphEdge.t) (e : GraphEdge.t) (n k : string).

Lemma getConnectedNodes_nil nodes n :
  getConnectedNodes (GraphData.Build nodes []) n = [].
Proof. reflexivity. Qed.

Lemma getConnectedNodes_cons nodes e es n :
  getConnectedNodes (GraphData.Build nodes (e :: es)) n =
  (if decide (touches n e) then [otherEnd n e] else []) ++
  getConnectedNodes (GraphData.Build nodes es) n.
Proof.
  unfold getConnectedNodes; cbn [GraphData.edges].
  rewrite filter_cons. destruct (decide (touches n e)); reflexivity.
Qed.

Lemma getConnectedNodes_app nodes es1 es2 n :
  getConnectedNodes (GraphData.Build nodes (es1 ++ es2)) n =
  getConnectedNodes (GraphData.Build nodes es1) n ++
  getConnectedNodes (GraphData.Build nodes es2) n.
Proof.
  unfold getConnectedNodes; cbn [GraphData.edges].
  by rewrite filter_app, fmap_app.
Qed.

Lemma otherEnd_self n e : touches n e → (otherEnd n e = n ↔ selfLoop n e).
Proof.
  unfold touches, otherEnd, selfLoop.
  destruct (decide (GraphEdge.source e = n)); intuition congruence.
Qed.

Lemma occurrences_cons k k' (l : list string) :
  occurrences k (k' :: l) =
  ((if decide (k' = k) then 1 else 0) + occurrences k l)%nat.
Proof.
  unfold occurrences. rewrite filter_cons.
  destruct (decide (k' = k)); reflexivity.
Qed.

Lemma occurrences_elem_of k (l : list string) :
  (0 < occurrences k l)%nat ↔ k ∈ l.
Proof.
  induction l as [|k' l IH].
  - split; [inversion 1 | intros H; by apply elem_of_nil in H].
  - rewrite occurrences_cons, elem_of_cons.
    destruct (decide (k' = k)) as [->|Hne]; [split; [auto | lia] |].
    rewrite <- IH. split; [intros; right; lia | intros [->|]; [done | lia]].
Qed.

Lemma selfLoop_count nodes es n :
  occurrences n (getConnectedNodes (GraphData.Build nodes es) n) =
  length (filter (selfLoop n) es).
Proof.
  induction es as [|e es IH]; [reflexivity |].
  rewrite getConnectedNodes_cons, filter_cons.
  destruct (decide (touches n e)) as [Ht|Ht]; cbn [app].
  - rewrite occurrences_cons, IH.
    pose proof (otherEnd_self n e Ht) as Hs.
    destruct (decide (otherEnd n e = n)), (decide (selfLoop n e));
      cbn [length]; intuition congruence.
  - rewrite IH. destruct (decide (selfLoop n e)) as [[Hs _]|]; [|done].
    exfalso. apply Ht. by left.
Qed.
End ConnectedNodes.

(** C6, as stated, fails: two edges from n1 to n2 make n2 appear twice
    among the connected nodes of n1; multi-edges are not collapsed. *)
Lemma getConnectedNodes_keeps_duplicates :
  getConnectedNodes multiEdgeGraph "n1" = ["n2"; "n2"] ∧
  ¬ NoDup (getConnectedNodes multiEdgeGraph "n1").
Proof.
  assert (H : getConnectedNodes multiEdgeGraph "n1" = ["n2"; "n2"])
    by reflexivity.
  split; [exact H |]. rewrite H. intros Hnd.
  apply NoDup_cons in Hnd as [Hin _]. apply Hin. by left.
Qed.

(** C6, amended: the connected-nodes query returns, in edge order, the
    opposite endpoint of each edge touching the node, one entry per
    touching edge (multi-edges repeat the neighbour); in the scenario
    graph the connected nodes of n1 are exactly n2. *)
Theorem getConnectedNodes_spec :
  (∀ g n k,
     k ∈ getConnectedNodes g n ↔
     ∃ e, e ∈ GraphData.edges g ∧
          ((GraphEdge.source e = n ∧ GraphEdge.target e = k) ∨
           (GraphEdge.target e = n ∧ GraphEdge.source e = k))) ∧
  (∀ nodes es1 es2 n,
     getConnectedNodes (GraphData.Build nodes (es1 ++ es2)) n =
     getConnectedNodes (GraphData.Build nodes es1) n ++
     getConnectedNodes (GraphData.Build nodes es2) n) ∧
  (∀ nodes e n,
     getConnectedNodes (GraphData.Build nodes [e]) n =
     if decide (GraphEdge.source e = n) then [GraphEdge.target e]
     else if decide (GraphEdge.target e = n) then [GraphEdge.source e]
     else []) ∧
  (∀ g n,
     length (getConnectedNodes g n) =
     length (filter (touches n) (GraphData.edges g))) ∧
  length (GraphData.nodes scenarioGraph) = 2%nat ∧
  length (GraphData.edges scenarioGraph) = 1%nat ∧
  getConnectedNodes scenarioGraph "n1" = ["n2"].
Proof.
  split; [|split; [|split; [|split]]].
  - intros g n k. unfold getConnectedNodes.
    rewrite list_elem_of_fmap. split.
    + intros (e & -> & He). apply list_elem_of_filter in He as [Ht He].
      exists e. split; [done |]. unfold otherEnd, touches in *.
      destruct (decide (GraphEdge.source e = n)); intuition congruence.
    + intros (e & He & Hk). exists e. split.
      * unfold otherEnd.
        destruct (decide (GraphEdge.source e = n)); intuition congruence.
      * apply list_elem_of_filter. unfold touches. tauto.
  - apply getConnectedNodes_app.
  - intros nodes e n. unfold getConnectedNodes, otherEnd, touches.
    cbn [GraphData.edges]. rewrite filter_cons, filter_nil.
    destruct (decide (GraphEdge.source e = n)) as [Hs|Hs].
    + rewrite decide_True by (by left). cbn. by rewrite decide_True.
    + destruct (decide (GraphEdge.target e = n)) as [Ht|Ht].
      * rewrite decide_True by (by right). cbn. by rewrite decide_False.
      * rewrite decide_False by tauto. reflexivity.
  - intros g n. unfold getConnectedNodes. by rewrite length_fmap.
  - repeat split; reflexivity.
Qed.

(** C10: when the edges contain a self-loop on n, the connected nodes of n
    include n itself, and n occurs there once per self-loop edge on n. *)
Theorem selfLoop_is_own_neighbour g n e :
  e ∈ GraphData.edges g →
  GraphEdge.source e = n →
  GraphEdge.target e = n →
  n ∈ getConnectedNodes g n ∧
  occurrences n (getConnectedNodes g n) =
  length (filter (selfLoop n) (GraphData.edges g)).
Proof.
  intros He Hs Ht. destruct g as [nodes es]; cbn [GraphData.edges] in *.
  pose proof (selfLoop_count nodes es n) as Hc. split; [|exact Hc].
  apply occurrences_elem_of. rewrite Hc.
  assert (Hin : e ∈ filter (selfLoop n) es)
    by (apply list_elem_of_filter; split; [by split | done]).
  destruct (filter (selfLoop n) es); [by apply elem_of_nil in Hin |].
  cbn; lia.
Qed.

Lemma selfLoop_is_own_neighbour_witness :
  "n1" ∈ getConnectedNodes selfLoopGraph "n1" ∧
  occurrences "n1" (getConnectedNodes selfLoopGraph "n1") = 2%nat.
Proof.
  apply (selfLoop_is_own_neighbour selfLoopGraph "n1"
           (GraphEdge.Build "e1" "n1" "n1" "relates")).
  - by left.
  - reflexivity.
  - reflexivity.
Defined.

(** ** The store under [loadGraph] *)

Section Store.
Implicit Types (s : ViewerState) (data : GraphData.t) (ev : Event).

Lemma loadGraph_call_graphData s : graphData (loadGraph_call s) = graphData s.
Proof. reflexivity. Qed.

Lemma loadGraph_resolved_graphData s data :
  graphData (loadGraph_settle (Resolved data) s) = data.
Proof. reflexivity. Qed.

Lemma loadGraph_rejected_graphData s err :
  graphData (loadGraph_settle (Rejected err) s) = graphData s.
Proof. reflexivity. Qed.

(** Only a successful answer touches the graph. *)
Lemma step_graphData s ev :
  graphData (step s ev) =
  match ev with
  | LoadGraphSettled _ (Resolved data) => data
  | _ => graphData s
  end.
Proof.
  destruct ev as [| ? [|] | | | | e | e | | | | |]; try reflexivity.
  - unfold step, handleMouseDown. by destruct (onCanvas e).
  - unfold step, handleMouseMove. by destruct (isDragging s).
Qed.

Lemma lastResolved_acc evs acc :
  lastResolved evs acc =
  match lastResolved evs None with
  | Some data => Some data
  | None => acc
  end.
Proof.
  revert acc. induction evs as [|ev evs IH]; intros acc; [reflexivity |].
  destruct ev as [| ? [data|] | | | | | | | | | |]; cbn [lastResolved];
    try apply IH.
  rewrite (IH (Some data)). by destruct (lastResolved evs None).
Qed.

Lemma run_graphData evs s :
  graphData (run evs s) = default (graphData s) (lastResolved evs None).
Proof.
  revert s. induction evs as [|ev evs IH]; intros s; [reflexivity |].
  unfold run in *. cbn [fold_left]. rewrite IH, step_graphData.
  destruct ev as [| ? [data|] | | | | | | | | | |]; cbn [lastResolved];
    try reflexivity.
  rewrite (lastResolved_acc evs (Some data)).
  by destruct (lastResolved evs None).
Qed.

Lemma last_cons_any_default data (payloads : list GraphData.t) d d' :
  List.last (data :: payloads) d = List.last (data :: payloads) d'.
Proof.
  revert data. induction payloads as [|data' payloads IH]; intros data;
    [reflexivity |].
  change (List.last (data' :: payloads) d = List.last (data' :: payloads) d').
  apply IH.
Qed.

Lemma applyPayloads_graphData payloads s :
  graphData (applyPayloads payloads s) = List.last payloads (graphData s).
Proof.
  revert s. induction payloads as [|data payloads IH]; intros s;
    [reflexivity |].
  unfold applyPayloads in *. cbn [fold_left]. rewrite IH.
  destruct payloads as [|data' payloads]; [reflexivity |].
  change (List.last (data :: data' :: payloads) (graphData s))
    with (List.last (data' :: payloads) (graphData s)).
  apply last_cons_any_default.
Qed.
End Store.

(** C1, as stated, fails: with n1, n2 and the edge e1 on display, expanding
    n2 and applying the answer leaves neither the node n1 nor the edge e1
    in the graph. *)
Lemma expand_drops_what_the_answer_lacks :
  let s := setGraphData scenarioGraph initialState in
  let s' := expand (plainNode "n2") (Resolved neighbourhoodOfN2) s in
  plainNode "n2" ∈ GraphData.nodes (graphData s) ∧
  "n1" ∈ nodeIds (graphData s) ∧ ("n1" ∉ nodeIds (graphData s')) ∧
  "e1" ∈ edgeIds (graphData s) ∧ ("e1" ∉ edgeIds (graphData s')).
Proof.
  cbn. repeat split.
  - apply elem_of_cons; right; by left.
  - by left.
  - intros H. repeat (apply elem_of_cons in H as [H|H]; [discriminate |]).
    by apply elem_of_nil in H.
  - by left.
  - intros H. repeat (apply elem_of_cons in H as [H|H]; [discriminate |]).
    by apply elem_of_nil in H.
Qed.

(** C1, amended: performing the expand action on a node and applying the
    answer replaces the graph by the fetched payload; a node or an edge
    that was present before is still present afterwards exactly when the
    payload contains it. *)
Theorem expand_replaces_graph (s : ViewerState) (node : GraphNode.t)
  (data : GraphData.t) :
  let s' := expand node (Resolved data) s in
  graphData s' = data ∧
  (∀ k, k ∈ nodeIds (graphData s) →
        (k ∈ nodeIds (graphData s') ↔ k ∈ nodeIds data)) ∧
  (∀ k, k ∈ edgeIds (graphData s) →
        (k ∈ edgeIds (graphData s') ↔ k ∈ edgeIds data)).
Proof.
  assert (H : graphData (expand node (Resolved data) s) = data) by reflexivity.
  cbv zeta. rewrite H. repeat split; auto.
Qed.

Lemma expand_replaces_graph_witness :
  "n2" ∈ nodeIds (graphData
    (expand (plainNode "n2") (Resolved neighbourhoodOfN2)
       (setGraphData scenarioGraph initialState))).
Proof.
  pose proof (expand_replaces_graph (setGraphData scenarioGraph initialState)
                (plainNode "n2") neighbourhoodOfN2) as (_ & Hn & _).
  apply (Hn "n2").
  - cbn. apply elem_of_cons; right; by left.
  - cbn. by left.
Defined.

(** ** Layout *)

Section Layout.
Variable containerRef : option Container.
Implicit Types (nodes : list GraphNode.t) (positions : gmap string Point.t).

(** A key that no node carries is left as it was. *)
Lemma placeNodes_other nodeCount index nodes positions (k : string) :
  k ∉ GraphNode.id <$> nodes →
  placeNodes containerRef nodeCount index nodes positions !! k =
  positions !! k.
Proof.
  revert index positions.
  induction nodes as [|node rest IH]; intros index positions Hk;
    [reflexivity |].
  cbn [placeNodes]. rewrite fmap_cons, not_elem_of_cons in Hk.
  destruct Hk as [Hne Hk]. rewrite IH by exact Hk.
  by apply lookup_insert_ne.
Qed.

(** The point stored under an id is the one of the last node carrying it. *)
Lemma placeNodes_last nodeCount index nodes positions (j : nat) node :
  nodes !! j = Some node →
  (∀ j' node', (j < j')%nat → nodes !! j' = Some node' →
               GraphNode.id node' ≠ GraphNode.id node) →
  placeNodes containerRef nodeCount index nodes positions
    !! GraphNode.id node =
  Some (circlePoint containerRef nodeCount (index + j)).
Proof.
  revert index positions j.
  induction nodes as [|node0 rest IH]; intros index positions j Hj Hlast;
    [discriminate |].
  cbn [placeNodes]. destruct j as [|j].
  - injection Hj as ->. rewrite placeNodes_other.
    + rewrite Nat.add_0_r. apply lookup_insert_eq.
    + intros Hin. apply list_elem_of_fmap in Hin as (node' & Heq & Hin).
      apply list_elem_of_lookup in Hin as [j' Hj'].
      apply (Hlast (S j') node'); [lia | exact Hj' | by symmetry].
  - replace (index + S j)%nat with (S index + j)%nat by lia.
    apply IH; [exact Hj |].
    intros j' node' Hlt Hj'. apply (Hlast (S j') node'); [lia | exact Hj'].
Qed.

(** The keys of the layout are the ids of the nodes. *)
Lemma placeNodes_is_Some nodeCount index nodes positions (k : string) :
  is_Some (placeNodes containerRef nodeCount index nodes positions !! k) ↔
  k ∈ GraphNode.id <$> nodes ∨ is_Some (positions !! k).
Proof.
  revert index positions.
  induction nodes as [|node rest IH]; intros index positions.
  - cbn. split; [by right | intros [H|H]; [by apply elem_of_nil in H | done]].
  - cbn [placeNodes]. rewrite IH, fmap_cons, elem_of_cons.
    destruct (decide (GraphNode.id node = k)) as [<-|Hne].
    + rewrite lookup_insert_eq. split; [intros _; by left; left | eauto].
    + rewrite lookup_insert_ne by exact Hne. split.
      * intros [H|H]; [left; by right | by right].
      * intros [[H|H]|H]; [congruence | by left | by right].
Qed.

Lemma calculateNodePositions_is_Some (g : GraphData.t) (k : string) :
  is_Some (calculateNodePositions containerRef g !! k) ↔ k ∈ nodeIds g.
Proof.
  unfold calculateNodePositions. rewrite placeNodes_is_Some, lookup_empty.
  unfold nodeIds. split; [intros [H|[? H]]; [done | discriminate] | by left].
Qed.

Lemma NoDup_ids_last nodes (j : nat) node :
  NoDup (GraphNode.id <$> nodes) →
  nodes !! j = Some node →
  ∀ j' node', (j < j')%nat → nodes !! j' = Some node' →
              GraphNode.id node' ≠ GraphNode.id node.
Proof.
  intros Hnd Hj j' node' Hlt Hj' Heq.
  assert (j' = j); [|lia].
  eapply (NoDup_lookup _ j' j (GraphNode.id node)); [exact Hnd | |].
  - rewrite list_lookup_fmap, Hj'. cbn. by rewrite Heq.
  - by rewrite list_lookup_fmap, Hj.
Qed.

(** With distinct ids, a node's point is that of its index and of the
    number of nodes. *)
Lemma calculateNodePositions_lookup (g : GraphData.t) (j : nat) node :
  NoDup (nodeIds g) →
  GraphData.nodes g !! j = Some node →
  calculateNodePositions containerRef g !! GraphNode.id node =
  Some (circlePoint containerRef (length (GraphData.nodes g)) j).
Proof.
  intros Hnd Hj. unfold calculateNodePositions.
  rewrite (placeNodes_last _ 0 _ _ j node); [reflexivity | exact Hj |].
  by apply NoDup_ids_last.
Qed.
End Layout.

Lemma Rmin_800_600 : Rmin 800 600 = 600.
Proof. apply Rmin_right. lra. Qed.

Lemma NoDup_scenario_ids : NoDup (nodeIds scenarioGraph).
Proof. apply (bool_decide_unpack (NoDup (nodeIds scenarioGraph))). reflexivity. Qed.

Lemma NoDup_grown_ids : NoDup (nodeIds grownGraph).
Proof. apply (bool_decide_unpack (NoDup (nodeIds grownGraph))). reflexivity. Qed.

(** C3, as stated, fails: n2 is on display at (220, 300) in an unmounted
    800 by 600 layout; once an answer with four nodes has been applied, the
    same n2 sits at (400, 480). *)
Lemma layout_moves_existing_node :
  let s := setGraphData scenarioGraph initialState in
  let s' := loadGraph (Resolved grownGraph) s in
  "n2" ∈ nodeIds (graphData s) ∧
  nodePositions None s !! "n2" = Some (Point.Build 220 300) ∧
  nodePositions None s' !! "n2" = Some (Point.Build 400 480) ∧
  nodePositions None s' !! "n2" ≠ nodePositions None s !! "n2".
Proof.
  cbv zeta.
  assert (H2 : nodePositions None (setGraphData scenarioGraph initialState)
               !! "n2" = Some (Point.Build 220 300)).
  { unfold nodePositions, setGraphData; cbn [graphData].
    etrans; [exact (calculateNodePositions_lookup None scenarioGraph 1
                      (plainNode "n2") NoDup_scenario_ids eq_refl) |].
    unfold circlePoint, layoutWidth, layoutHeight. cbn.
    rewrite Rmin_800_600.
    replace (2 * PI * 1 / (1 + 1)) with PI by lra.
    rewrite cos_PI, sin_PI. f_equal. f_equal; lra. }
  assert (H4 : nodePositions None
                 (loadGraph (Resolved grownGraph)
                    (setGraphData scenarioGraph initialState))
               !! "n2" = Some (Point.Build 400 480)).
  { unfold nodePositions, loadGraph, loadGraph_settle, setLoading,
      setGraphData; cbn [graphData].
    etrans; [exact (calculateNodePositions_lookup None grownGraph 1
                      (plainNode "n2") NoDup_grown_ids eq_refl) |].
    unfold circlePoint, layoutWidth, layoutHeight. cbn.
    rewrite Rmin_800_600.
    replace (2 * PI * 1 / (1 + 1 + 1 + 1)) with (PI / 2) by lra.
    rewrite cos_PI2, sin_PI2. f_equal. f_equal; lra. }
  split; [apply elem_of_cons; right; by left |].
  split; [exact H2 |]. split; [exact H4 |].
  rewrite H2, H4. intros Heq. injection Heq as Hx Hy. lra.
Qed.

(** C3, amended: the layout is computed afresh from the current node list
    on every render; a node's point depends only on the container size, on
    the node's index in the list and on the number of nodes, so a node that
    was present before keeps its position when the applied data lists it
    at the same index among as many nodes (ids being distinct). *)
Theorem layout_stable_at_same_index (containerRef : option Container)
  (s : ViewerState) (data : GraphData.t) (j : nat) (node node' : GraphNode.t) :
  NoDup (nodeIds (graphData s)) →
  NoDup (nodeIds data) →
  GraphData.nodes (graphData s) !! j = Some node →
  GraphData.nodes data !! j = Some node' →
  GraphNode.id node' = GraphNode.id node →
  length (GraphData.nodes data) = length (GraphData.nodes (graphData s)) →
  nodePositions containerRef s !! GraphNode.id node =
    Some (circlePoint containerRef (length (GraphData.nodes (graphData s))) j) ∧
  nodePositions containerRef (loadGraph (Resolved data) s)
    !! GraphNode.id node =
  nodePositions containerRef s !! GraphNode.id node.
Proof.
  intros Hnd Hnd' Hj Hj' Hid Hlen.
  assert (Hg : graphData (loadGraph (Resolved data) s) = data) by reflexivity.
  unfold nodePositions. rewrite Hg.
  rewrite (calculateNodePositions_lookup _ _ j node Hnd Hj).
  split; [reflexivity |].
  rewrite <- Hid, <- Hlen.
  exact (calculateNodePositions_lookup _ _ j node' Hnd' Hj').
Qed.

Lemma layout_stable_at_same_index_witness :
  nodePositions None
    (loadGraph (Resolved multiEdgeGraph)
       (setGraphData scenarioGraph initialState)) !! "n2" =
  nodePositions None (setGraphData scenarioGraph initialState) !! "n2".
Proof.
  apply (layout_stable_at_same_index None
           (setGraphData scenarioGraph initialState) multiEdgeGraph 1
           (plainNode "n2") (plainNode "n2")).
  - apply (bool_decide_unpack (NoDup (nodeIds scenarioGraph))). reflexivity.
  - apply (bool_decide_unpack (NoDup (nodeIds multiEdgeGraph))). reflexivity.
  - reflexivity.
  - reflexivity.
  - reflexivity.
  - reflexivity.
Defined.

(** ** Edges and their endpoints *)

(** C2, as stated, fails: after the scenario graph, a payload with the
    edge e2 from n1 to n99 is applied; e2 is then held in the store
    although n99 is not a node. *)
Lemma dangling_edge_is_stored :
  let s := applyPayloads [scenarioGraph; danglingPayload] initialState in
  GraphEdge.Build "e2" "n1" "n99" "relates" ∈ GraphData.edges (graphData s) ∧
  ("n99" ∉ nodeIds (graphData s)).
Proof.
  cbn. split; [by left |].
  intros H. repeat (apply elem_of_cons in H as [H|H]; [discriminate |]).
  by apply elem_of_nil in H.
Qed.

(** C2, amended: after any sequence of applications of fetched payloads
    the store holds exactly the last payload applied, nodes and edges as
    received: an incoming edge with a dangling endpoint is stored, not
    dropped, so every stored edge has both its endpoints among the ids of
    the stored nodes exactly when that is true of the last payload. *)
Theorem edges_stored_as_received :
  (∀ payloads s,
     graphData (applyPayloads payloads s) = List.last payloads (graphData s)) ∧
  (∀ payloads data s,
     GraphData.nodes (graphData (applyPayloads (payloads ++ [data]) s)) =
       GraphData.nodes data ∧
     GraphData.edges (graphData (applyPayloads (payloads ++ [data]) s)) =
       GraphData.edges data) ∧
  (∀ payloads data s e,
     e ∈ GraphData.edges (graphData (applyPayloads (payloads ++ [data]) s)) ↔
     e ∈ GraphData.edges data) ∧
  (∀ payloads data s,
     endpointsClosed (graphData (applyPayloads (payloads ++ [data]) s)) ↔
     endpointsClosed data).
Proof.
  assert (H : ∀ payloads data s,
            graphData (applyPayloads (payloads ++ [data]) s) = data)
    by (intros; by rewrite applyPayloads_graphData, last_last).
  split; [apply applyPayloads_graphData |]. split; [|split].
  - intros payloads data s. by rewrite H.
  - intros payloads data s e. by rewrite H.
  - intros payloads data s. by rewrite H.
Qed.

(** ** Answers that arrive late, answers that fail *)

(** C4, as stated, fails: the load of n1 is still outstanding when the
    load of n2 is called; the answer for n2 arrives first and is shown, and
    when the answer of the superseded load of n1 arrives it is applied all
    the same and replaces the newer graph. *)
Lemma stale_answer_is_applied :
  let before := run (racingCalls ++
                     [LoadGraphSettled 2 (Resolved neighbourhoodOfN2)])
                  initialState in
  let after := step before (LoadGraphSettled 1 (Resolved scenarioGraph)) in
  1%nat ∈ calledRequests racingCalls ∧
  (1%nat ∉ settledRequests racingCalls) ∧
  run racingTrace initialState = after ∧
  graphData before = neighbourhoodOfN2 ∧
  graphData after = scenarioGraph ∧
  graphData after ≠ graphData before.
Proof.
  cbv zeta. split; [by left |]. split.
  - cbn. intros H. by apply elem_of_nil in H.
  - repeat split; discriminate.
Qed.

(** C4, amended: every successful answer is applied when it arrives,
    whether or not a newer load has been called in the meantime; after any
    trace the graph is the payload of the answer that arrived last, and the
    graph it started from when none has arrived. *)
Theorem graph_is_last_arrived_answer :
  (∀ s request data,
     graphData (step s (LoadGraphSettled request (Resolved data))) = data) ∧
  (∀ evs s,
     graphData (run evs s) = default (graphData s) (lastResolved evs None)) ∧
  (∀ evs s request data,
     graphData (run (evs ++ [LoadGraphSettled request (Resolved data)]) s) =
     data).
Proof.
  split; [reflexivity | split; [apply run_graphData |]].
  intros evs s request data. unfold run. by rewrite fold_left_app.
Qed.



(** ** Zoom *)

Section Zoom.
Implicit Types (v : R) (s : ViewerState).

Lemma zoomIn_in_range v : inZoomRange v → inZoomRange (Rmin (v * 1.2) 3).
Proof.
  unfold inZoomRange, Rmin. intros [Hlo Hhi].
  destruct (Rle_dec (v * 1.2) 3); lra.
Qed.

Lemma zoomOut_in_range v : inZoomRange v → inZoomRange (Rmax (v / 1.2) 0.3).
Proof.
  unfold inZoomRange, Rmax. intros [Hlo Hhi].
  destruct (Rle_dec (v / 1.2) 0.3); lra.
Qed.

Lemma step_scale s ev :
  scale (step s ev) =
  match ev with
  | ZoomInClicked => Rmin (scale s * 1.2) 3
  | ZoomOutClicked => Rmax (scale s / 1.2) 0.3
  | FitClicked => 1
  | _ => scale s
  end.
Proof.
  destruct ev as [| ? [|] | | | | e | e | | | | |]; try reflexivity.
  - unfold step, handleMouseDown. by destruct (onCanvas e).
  - unfold step, handleMouseMove. by destruct (isDragging s).
Qed.

Lemma step_in_range s ev :
  inZoomRange (scale s) → inZoomRange (scale (step s ev)).
Proof.
  intros H. rewrite step_scale.
  destruct ev; auto using zoomIn_in_range, zoomOut_in_range.
  unfold inZoomRange; lra.
Qed.

Lemma run_in_range evs s :
  inZoomRange (scale s) → inZoomRange (scale (run evs s)).
Proof.
  revert s. induction evs as [|ev evs IH]; intros s H; [exact H |].
  apply IH, step_in_range, H.
Qed.
End Zoom.

(** C7: zooming in sets the scale to min(scale * 1.2, 3) and zooming out
    to max(scale / 1.2, 0.3); from the initial scale of 1 the scale stays
    within [0.3, 3] whatever the user does; three zoom-ins from scale 1
    give 1.2^3 = 1.728. *)
Theorem zoom_clamped :
  (∀ s, scale (handleZoomIn s) = Rmin (scale s * 1.2) 3) ∧
  (∀ s, scale (handleZoomOut s) = Rmax (scale s / 1.2) 0.3) ∧
  (∀ s, scale (handleZoomIn s) <= 3 ∧ 0.3 <= scale (handleZoomOut s)) ∧
  (∀ evs, inZoomRange (scale (run evs initialState))) ∧
  (∀ s, scale (run [ZoomInClicked; ZoomInClicked; ZoomInClicked]
                 (setScale (λ _, 1) s)) = 1.2 ^ 3) ∧
  1.2 ^ 3 = 1.728.
Proof.
  split; [reflexivity | split; [reflexivity |]].
  split; [|split; [|split]].
  - intros s. cbn. split; [apply Rmin_r | apply Rmax_r].
  - intros evs. apply run_in_range. unfold inZoomRange. cbn. lra.
  - intros s. cbn.
    rewrite (Rmin_left (1 * 1.2) 3) by lra.
    rewrite (Rmin_left (1 * 1.2 * 1.2) 3) by lra.
    rewrite (Rmin_left (1 * 1.2 * 1.2 * 1.2) 3) by lra.
    lra.
  - lra.
Qed.

(** ** Panning *)

Section Pan.
Implicit Types (e : MouseEvent) (s : ViewerState).

Lemma handleMouseDown_on_canvas e s :
  onCanvas e = true →
  handleMouseDown e s =
  setDragStart (pointSub (screenPoint e) (position s)) (setIsDragging true s).
Proof. intros H. unfold handleMouseDown. by rewrite H. Qed.

Lemma handleMouseMove_panning e s :
  isDragging s = true →
  handleMouseMove e s =
  setPosition (pointSub (screenPoint e) (dragStart s)) s.
Proof. intros H. unfold handleMouseMove. by rewrite H. Qed.

Lemma handleMouseMove_idle e s : isDragging s = false → handleMouseMove e s = s.
Proof. intros H. unfold handleMouseMove. by rewrite H. Qed.

Lemma panState_Panning s : panState s = Panning ↔ isDragging s = true.
Proof. unfold panState. destruct (isDragging s); split; congruence. Qed.

Lemma panState_Idle s : panState s = Idle ↔ isDragging s = false.
Proof. unfold panState. destruct (isDragging s); split; congruence. Qed.

(** While the button is held, the canvas follows the pointer: the offset
    moves by as much as the pointer has moved since the press. *)
Lemma drag_follows_pointer e0 e1 s :
  onCanvas e0 = true →
  position (handleMouseMove e1 (handleMouseDown e0 s)) =
  Point.Build (Point.x (position s) + (clientX e1 - clientX e0))
              (Point.y (position s) + (clientY e1 - clientY e0)).
Proof.
  intros H. rewrite (handleMouseDown_on_canvas e0 s H).
  rewrite handleMouseMove_panning by reflexivity.
  unfold pointSub, screenPoint. cbn. f_equal; lra.
Qed.
End Pan.

(** C8: the drag gesture has the two states Idle and Panning.  A press on
    the canvas at p leads (from Idle, and from any state) to Panning and
    records the anchor p - offset, leaving the offset alone; a move to p
    while Panning sets the offset to p - anchor and stays Panning; a
    release leads to Idle and leaves the offset alone; a move while Idle
    changes nothing. *)
Theorem pan_state_machine (e : MouseEvent) (s : ViewerState) :
  (onCanvas e = true →
   panState (handleMouseDown e s) = Panning ∧
   dragStart (handleMouseDown e s) = pointSub (screenPoint e) (position s) ∧
   position (handleMouseDown e s) = position s) ∧
  (panState s = Panning →
   position (handleMouseMove e s) = pointSub (screenPoint e) (dragStart s) ∧
   dragStart (handleMouseMove e s) = dragStart s ∧
   panState (handleMouseMove e s) = Panning) ∧
  (panState (handleMouseUp s) = Idle ∧
   position (handleMouseUp s) = position s) ∧
  (panState s = Idle → handleMouseMove e s = s).
Proof.
  split; [|split; [|split]].
  - intros H. by rewrite (handleMouseDown_on_canvas e s H).
  - intros H. apply panState_Panning in H.
    rewrite (handleMouseMove_panning e s H). unfold panState. cbn.
    by rewrite H.
  - done.
  - intros H. apply panState_Idle in H. by apply handleMouseMove_idle.
Qed.

Lemma pan_state_machine_witness :
  let press := mkMouseEvent OnContainer 10 20 in
  let move := mkMouseEvent InsideCanvas 15 18 in
  let pressed := handleMouseDown press initialState in
  (panState pressed = Panning ∧
   dragStart pressed = pointSub (screenPoint press) (position initialState) ∧
   position pressed = position initialState) ∧
  (position (handleMouseMove move pressed) =
     pointSub (screenPoint move) (dragStart pressed) ∧
   dragStart (handleMouseMove move pressed) = dragStart pressed ∧
   panState (handleMouseMove move pressed) = Panning) ∧
  handleMouseMove move initialState = initialState.
Proof.
  cbv zeta. split; [|split].
  - apply (pan_state_machine (mkMouseEvent OnContainer 10 20) initialState).
    reflexivity.
  - apply (pan_state_machine (mkMouseEvent InsideCanvas 15 18)
             (handleMouseDown (mkMouseEvent OnContainer 10 20) initialState)).
    reflexivity.
  - apply (pan_state_machine (mkMouseEvent InsideCanvas 15 18) initialState).
    reflexivity.
Defined.

(** ** Screen and graph coordinates *)

Lemma toScreen_formula (s : ViewerState) (p : Point.t) :
  toScreen s p =
  Point.Build (Point.x p * scale s + Point.x (position s))
              (Point.y p * scale s + Point.y (position s)).
Proof. reflexivity. Qed.

(** C5: the transform of the canvas scales by the zoom scale and then
    translates by the offset, so a graph point p is shown at
    p * scale + offset; for a positive scale, mapping a point to the
    screen and back by (q - offset) / scale returns the point (exactly, in
    real arithmetic), and so does the way from the screen to the graph and
    back. *)
Theorem coordinate_round_trip (s : ViewerState) (p : Point.t) :
  0 < scale s →
  toScreen s p =
    Point.Build (Point.x p * scale s + Point.x (position s))
                (Point.y p * scale s + Point.y (position s)) ∧
  toGraph s (toScreen s p) = p ∧
  toScreen s (toGraph s p) = p.
Proof.
  intros Hs. split; [reflexivity |].
  rewrite !toScreen_formula. destruct p as [px py]. unfold toGraph. cbn.
  split; f_equal; field; lra.
Qed.

Lemma coordinate_round_trip_witness :
  let s := handleMouseMove (mkMouseEvent InsideCanvas 15 18)
             (handleMouseDown (mkMouseEvent OnContainer 10 20)
                (handleZoomIn initialState)) in
  toGraph s (toScreen s (Point.Build 220 300)) = Point.Build 220 300.
Proof.
  cbv zeta.
  apply (coordinate_round_trip
           (handleMouseMove (mkMouseEvent InsideCanvas 15 18)
              (handleMouseDown (mkMouseEvent OnContainer 10 20)
                 (handleZoomIn initialState)))
           (Point.Build 220 300)).
  cbn. rewrite Rmin_left by lra. lra.
Defined.

(** * Further properties of the component *)

(** ** Neighbours *)

Section Neighbours.
Implicit Types (es : list GraphEdge.t) (e : GraphEdge.t) (n k : string).

Lemma occurrences_app k (l1 l2 : list string) :
  occurrences k (l1 ++ l2) = (occurrences k l1 + occurrences k l2)%nat.
Proof. unfold occurrences. by rewrite filter_app, length_app. Qed.

(** What one edge adds to the neighbours of n, k adds as often to those
    of k. *)
Lemma edge_contribution_sym n k e :
  occurrences k (if decide (touches n e) then [otherEnd n e] else []) =
  occurrences n (if decide (touches k e) then [otherEnd k e] else []).
Proof.
  unfold touches, otherEnd. destruct e as [i src tgt ty].
  cbn [GraphEdge.source GraphEdge.target].
  repeat case_decide; rewrite ?occurrences_cons; repeat case_decide;
    try reflexivity; exfalso; intuition congruence.
Qed.

Lemma neighbour_count_sym nodes es n k :
  occurrences k (getConnectedNodes (GraphData.Build nodes es) n) =
  occurrences n (getConnectedNodes (GraphData.Build nodes es) k).
Proof.
  induction es as [|e es IH]; [reflexivity |].
  rewrite !getConnectedNodes_cons, !occurrences_app, IH.
  f_equal. apply edge_contribution_sym.
Qed.

Lemma length_omap_le {A B} (f : A → option B) (l : list A) :
  (length (omap f l) ≤ length l)%nat.
Proof.
  induction l as [|a l IH]; [reflexivity |].
  cbn. destruct (f a); cbn; lia.
Qed.

Lemma findNode_Some nodes n node :
  findNode nodes n = Some node → node ∈ nodes ∧ GraphNode.id node = n.
Proof.
  unfold findNode. intros H. apply find_some in H as [Hin Hb].
  split; [by apply list_elem_of_In | by apply bool_decide_eq_true in Hb].
Qed.

Lemma findNode_None nodes n : findNode nodes n = None ↔ n ∉ GraphNode.id <$> nodes.
Proof.
  unfold findNode. induction nodes as [|node rest IH]; cbn [List.find].
  - split; [intros _ H; by apply elem_of_nil in H | done].
  - rewrite fmap_cons, not_elem_of_cons. case_bool_decide as Hid.
    + split; [discriminate | intros [Hne _]; congruence].
    + rewrite IH. split; [intros H; split; [congruence | done] | tauto].
Qed.
End Neighbours.

(** X1: being a neighbour is mutual, with multiplicity: k is listed among
    the connected nodes of n exactly as often as n is listed among those
    of k. *)
Theorem connected_nodes_mutual (g : GraphData.t) (n k : string) :
  occurrences k (getConnectedNodes g n) =
  occurrences n (getConnectedNodes g k) ∧
  (k ∈ getConnectedNodes g n ↔ n ∈ getConnectedNodes g k).
Proof.
  destruct g as [nodes es].
  pose proof (neighbour_count_sym nodes es n k) as H. split; [exact H |].
  rewrite <- !occurrences_elem_of, H. reflexivity.
Qed.

(** X2: every row of the connected-nodes panel is a node of the current
    graph, joined to the selected node by an edge; a connected id for
    which the graph has no node gets no row, so there are at most as many
    rows as edges touching the selected node; and with no selection there
    is no row. *)
Theorem connected_rows_are_graph_nodes (s : ViewerState) :
  (∀ selected row,
     selectedNode s = Some selected →
     row ∈ connectedNodeRows s →
     row ∈ GraphData.nodes (graphData s) ∧
     GraphNode.id row ∈
       getConnectedNodes (graphData s) (GraphNode.id selected)) ∧
  (∀ selected row,
     selectedNode s = Some selected →
     row ∈ GraphData.nodes (graphData s) →
     GraphNode.id row ∈
       getConnectedNodes (graphData s) (GraphNode.id selected) →
     ∃ row', row' ∈ connectedNodeRows s ∧
             GraphNode.id row' = GraphNode.id row) ∧
  (∀ selected,
     selectedNode s = Some selected →
     (length (connectedNodeRows s) ≤
      length (filter (touches (GraphNode.id selected))
                (GraphData.edges (graphData s))))%nat) ∧
  (selectedNode s = None → connectedNodeRows s = []).
Proof.
  unfold connectedNodeRows. split; [|split; [|split]].
  - intros selected row -> Hrow.
    apply list_elem_of_omap in Hrow as (k & Hk & Hfind).
    apply findNode_Some in Hfind as [Hin <-]. by split.
  - intros selected row -> Hin Hk.
    destruct (findNode (GraphData.nodes (graphData s)) (GraphNode.id row))
      as [row'|] eqn:Hfind.
    + exists row'. split.
      * apply list_elem_of_omap. eauto.
      * by apply findNode_Some in Hfind as [_ ?].
    + apply findNode_None in Hfind. exfalso. apply Hfind.
      apply list_elem_of_fmap. eauto.
  - intros selected ->. etrans; [apply length_omap_le |].
    unfold getConnectedNodes. by rewrite length_fmap.
  - by intros ->.
Qed.

Lemma connected_rows_are_graph_nodes_witness :
  let s := handleNodeClick (plainNode "n1")
             (setGraphData repeatedIdGraph initialState) in
  plainNode "n2" ∈ GraphData.nodes (graphData s) ∧
  GraphNode.id (plainNode "n2") ∈
    getConnectedNodes (graphData s) (GraphNode.id (plainNode "n1")).
Proof.
  cbv zeta.
  pose proof (connected_rows_are_graph_nodes
                (handleNodeClick (plainNode "n1")
                   (setGraphData repeatedIdGraph initialState)))
    as (H & _).
  apply (H (plainNode "n1") (plainNode "n2")).
  - reflexivity.
  - cbn. by left.
Defined.

(** ** What the events leave alone *)

Section Frames.
Implicit Types (s : ViewerState) (ev : Event) (evs : list Event).

Lemma step_viewport s ev :
  isViewportEvent ev = false →
  scale (step s ev) = scale s ∧ position (step s ev) = position s ∧
  isDragging (step s ev) = isDragging s ∧ dragStart (step s ev) = dragStart s.
Proof.
  destruct ev as [| ? [|] | | | | | | | | | |]; cbn [isViewportEvent];
    intros H; try discriminate H; repeat split.
Qed.

Lemma run_cons ev evs s : run (ev :: evs) s = run evs (step s ev).
Proof. reflexivity. Qed.
End Frames.

(** X3: loading, selecting and closing the details never move the view:
    over any trace without zoom, fit or mouse events on the canvas, the
    scale, the offset and the state of the drag stay as they were. *)
Theorem data_events_keep_viewport (evs : list Event) (s : ViewerState) :
  Forall (λ ev, isViewportEvent ev = false) evs →
  scale (run evs s) = scale s ∧
  position (run evs s) = position s ∧
  isDragging (run evs s) = isDragging s ∧
  dragStart (run evs s) = dragStart s ∧
  renderTransform (run evs s) = renderTransform s.
Proof.
  intros H. revert s.
  induction H as [|ev evs Hev _ IH]; intros s; [done |].
  rewrite run_cons. destruct (IH (step s ev)) as (Hs & Hp & Hd & Ha & Ht).
  destruct (step_viewport s ev Hev) as (Hs' & Hp' & Hd' & Ha').
  unfold renderTransform in *.
  rewrite Hs, Hp, Hd, Ha, Hs', Hp', Hd', Ha'. done.
Qed.

Lemma data_events_keep_viewport_witness :
  let evs := [LoadGraphCalled 1 "n1" 2;
              NodeClicked (plainNode "n1");
              LoadGraphSettled 1 (Resolved scenarioGraph);
              NodeDoubleClicked 2 (plainNode "n2");
              LoadGraphSettled 2 (Rejected ThrownOther);
              DetailsClosed] in
  scale (run evs (handleZoomIn initialState)) =
    scale (handleZoomIn initialState).
Proof.
  cbv zeta.
  apply (data_events_keep_viewport
           [LoadGraphCalled 1 "n1" 2;
            NodeClicked (plainNode "n1");
            LoadGraphSettled 1 (Resolved scenarioGraph);
            NodeDoubleClicked 2 (plainNode "n2");
            LoadGraphSettled 2 (Rejected ThrownOther);
            DetailsClosed]
           (handleZoomIn initialState)).
  repeat constructor.
Defined.

Section SameSize.
Variables containerRef containerRef' : option Container.
Hypothesis same_width : layoutWidth containerRef' = layoutWidth containerRef.
Hypothesis same_height :
  layoutHeight containerRef' = layoutHeight containerRef.

Lemma circlePoint_same_size nodeCount index :
  circlePoint containerRef' nodeCount index =
  circlePoint containerRef nodeCount index.
Proof. unfold circlePoint. by rewrite same_width, same_height. Qed.

Lemma placeNodes_same_size nodeCount index nodes
  (positions : gmap string Point.t) :
  placeNodes containerRef' nodeCount index nodes positions =
  placeNodes containerRef nodeCount index nodes positions.
Proof.
  revert index positions.
  induction nodes as [|node rest IH]; intros index positions;
    [reflexivity |].
  cbn [placeNodes]. by rewrite circlePoint_same_size, IH.
Qed.
End SameSize.

(** X4: only a successful answer changes the graph: over any trace in
    which none arrives (calls, failed answers, zooming, dragging,
    selecting), the graph and the connected nodes of every node stay as
    they were, and the layout at the end is the layout at the start
    whenever the container measures the same at both renders (it need not:
    selecting a node opens the details panel beside the canvas). *)
Theorem graph_changes_only_on_answer (evs : list Event) (s : ViewerState) :
  Forall (λ ev, isResolvedAnswer ev = false) evs →
  graphData (run evs s) = graphData s ∧
  (∀ n, getConnectedNodes (graphData (run evs s)) n =
        getConnectedNodes (graphData s) n) ∧
  (∀ containerRef containerRef',
     layoutWidth containerRef' = layoutWidth containerRef →
     layoutHeight containerRef' = layoutHeight containerRef →
     nodePositions containerRef' (run evs s) = nodePositions containerRef s).
Proof.
  intros H.
  assert (Hg : graphData (run evs s) = graphData s).
  { revert s. induction H as [|ev evs Hev _ IH]; intros s; [done |].
    rewrite run_cons, IH, step_graphData.
    by destruct ev as [| ? [|] | | | | | | | | | |]. }
  split; [exact Hg |]. split; [intros n; by rewrite Hg |].
  intros containerRef containerRef' Hw Hh.
  unfold nodePositions, calculateNodePositions. rewrite Hg.
  by apply placeNodes_same_size.
Qed.

Lemma graph_changes_only_on_answer_witness :
  let evs := [LoadGraphCalled 1 "n1" 2; ZoomInClicked;
              MouseDown (mkMouseEvent OnContainer 10 20);
              MouseMove (mkMouseEvent OnContainer 30 25);
              LoadGraphSettled 1 (Rejected (ThrownError "offline"));
              MouseUp; NodeClicked (plainNode "n2")] in
  graphData (run evs (setGraphData scenarioGraph initialState)) =
    graphData (setGraphData scenarioGraph initialState) ∧
  nodePositions (Some (mkContainer 800 0))
    (run evs (setGraphData scenarioGraph initialState)) =
    nodePositions None (setGraphData scenarioGraph initialState).
Proof.
  cbv zeta.
  pose proof (graph_changes_only_on_answer
           [LoadGraphCalled 1 "n1" 2; ZoomInClicked;
            MouseDown (mkMouseEvent OnContainer 10 20);
            MouseMove (mkMouseEvent OnContainer 30 25);
            LoadGraphSettled 1 (Rejected (ThrownError "offline"));
            MouseUp; NodeClicked (plainNode "n2")]
           (setGraphData scenarioGraph initialState)) as H.
  destruct H as (Hg & _ & Hl); [repeat constructor |].
  split; [exact Hg |].
  apply (Hl None (Some (mkContainer 800 0))); reflexivity.
Defined.

(** ** Zooming further *)

Section ZoomMore.
Implicit Types (v : R) (s : ViewerState) (n : nat).

Lemma setScale_id s v :
  v = scale s → setScale (λ _, v) s = s.
Proof. intros ->. by destruct s. Qed.

Lemma scale_handleZoomIn s : scale (handleZoomIn s) = Rmin (scale s * 1.2) 3.
Proof. reflexivity. Qed.

Lemma scale_handleZoomOut s :
  scale (handleZoomOut s) = Rmax (scale s / 1.2) 0.3.
Proof. reflexivity. Qed.

Lemma iter_zoomIn_scale n s :
  scale s <= 3 →
  scale (Nat.iter n handleZoomIn s) = Rmin (scale s * 1.2 ^ n) 3.
Proof.
  intros Hs. induction n as [|n IH].
  - cbn. rewrite Rmin_left; lra.
  - rewrite Nat.iter_succ, scale_handleZoomIn, IH.
    change (1.2 ^ S n) with (1.2 * 1.2 ^ n).
    set (t := 1.2 ^ n). unfold Rmin.
    destruct (Rle_dec (scale s * t) 3) as [H|H].
    + replace (scale s * (1.2 * t)) with (scale s * t * 1.2) by ring.
      reflexivity.
    + assert (3 < scale s * (1.2 * t))
        by (replace (scale s * (1.2 * t)) with (scale s * t * 1.2) by ring;
            lra).
      destruct (Rle_dec (3 * 1.2) 3), (Rle_dec (scale s * (1.2 * t)) 3); lra.
Qed.

Lemma iter_zoomOut_scale n s :
  0.3 <= scale s →
  scale (Nat.iter n handleZoomOut s) = Rmax (scale s / 1.2 ^ n) 0.3.
Proof.
  intros Hs. induction n as [|n IH].
  - cbn. rewrite Rmax_left; lra.
  - rewrite Nat.iter_succ, scale_handleZoomOut, IH.
    change (1.2 ^ S n) with (1.2 * 1.2 ^ n).
    assert (Ht : 0 < 1.2 ^ n) by (apply pow_lt; lra).
    set (t := 1.2 ^ n) in *.
    assert (Hq : scale s / (1.2 * t) = scale s / t / 1.2) by (field; lra).
    rewrite Hq. unfold Rmax.
    destruct (Rle_dec (scale s / t) 0.3) as [H|H].
    + destruct (Rle_dec (0.3 / 1.2) 0.3), (Rle_dec (scale s / t / 1.2) 0.3);
        lra.
    + reflexivity.
Qed.

Lemma pow_12_ge_13 n : (13 ≤ n)%nat → 10 < 1.2 ^ n.
Proof.
  intros Hn. apply Rlt_le_trans with (1.2 ^ 13); [cbn; lra |].
  apply Rle_pow; [lra | exact Hn].
Qed.
End ZoomMore.

(** X5: the zoom saturates: from any scale within [0.3, 3], thirteen or
    more zoom-ins end at exactly 3 and thirteen or more zoom-outs at
    exactly 0.3. *)
Theorem zoom_saturates (s : ViewerState) (n : nat) :
  inZoomRange (scale s) →
  (13 ≤ n)%nat →
  scale (Nat.iter n handleZoomIn s) = 3 ∧
  scale (Nat.iter n handleZoomOut s) = 0.3.
Proof.
  intros [Hlo Hhi] Hn. pose proof (pow_12_ge_13 n Hn) as Hp.
  rewrite iter_zoomIn_scale, iter_zoomOut_scale by lra.
  set (t := 1.2 ^ n) in *. split.
  - apply Rmin_right. nra.
  - apply Rmax_right.
    apply Rmult_le_reg_r with t; [lra |].
    unfold Rdiv. rewrite Rmult_assoc, Rinv_l by lra. nra.
Qed.

Lemma zoom_saturates_witness :
  scale (Nat.iter 13 handleZoomIn initialState) = 3 ∧
  scale (Nat.iter 13 handleZoomOut initialState) = 0.3.
Proof.
  apply (zoom_saturates initialState 13).
  - unfold inZoomRange. cbn. lra.
  - lia.
Defined.

(** X6: within [0.3, 3], zooming in never lowers the scale and zooming
    out never raises it; at scale 3 the zoom-in button changes nothing and
    at scale 0.3 the zoom-out button changes nothing. *)
Theorem zoom_monotone (s : ViewerState) :
  inZoomRange (scale s) →
  scale s <= scale (handleZoomIn s) ∧
  scale (handleZoomOut s) <= scale s ∧
  (scale s = 3 → handleZoomIn s = s) ∧
  (scale s = 0.3 → handleZoomOut s = s).
Proof.
  intros [Hlo Hhi]. destruct s as [g l er sel v p d a].
  cbn [scale] in *. unfold handleZoomIn, handleZoomOut, setScale.
  cbn [scale graphData loading error selectedNode position isDragging
       dragStart].
  repeat split.
  - unfold Rmin. destruct (Rle_dec (v * 1.2) 3); lra.
  - unfold Rmax. destruct (Rle_dec (v / 1.2) 0.3); lra.
  - intros ->. f_equal. apply Rmin_right. lra.
  - intros ->. f_equal. apply Rmax_right. lra.
Qed.

Lemma zoom_monotone_witness :
  scale initialState <= scale (handleZoomIn initialState) ∧
  scale (handleZoomOut initialState) <= scale initialState.
Proof.
  pose proof (zoom_monotone initialState) as H.
  destruct H as (H1 & H2 & _); [unfold inZoomRange; cbn; lra |].
  split; [exact H1 | exact H2].
Defined.

(** X7: as long as neither limit is hit, zooming in and zooming out undo
    each other (numbers taken as reals): if scale * 1.2 is at most 3, a
    zoom-in followed by a zoom-out restores the state, and if scale / 1.2
    is at least 0.3, a zoom-out followed by a zoom-in restores it. *)
Theorem zoom_in_out_round_trip (s : ViewerState) :
  inZoomRange (scale s) →
  (scale s * 1.2 <= 3 → handleZoomOut (handleZoomIn s) = s) ∧
  (0.3 <= scale s / 1.2 → handleZoomIn (handleZoomOut s) = s).
Proof.
  intros [Hlo Hhi]. destruct s as [g l er sel v p d a].
  cbn [scale] in *. unfold handleZoomIn, handleZoomOut, setScale.
  cbn [scale graphData loading error selectedNode position isDragging
       dragStart].
  split; intros H; f_equal.
  - rewrite (Rmin_left _ _ H). rewrite Rmax_left; lra.
  - rewrite (Rmax_left (v / 1.2) 0.3 H). rewrite Rmin_left; lra.
Qed.

Lemma zoom_in_out_round_trip_witness :
  handleZoomOut (handleZoomIn initialState) = initialState ∧
  handleZoomIn (handleZoomOut initialState) = initialState.
Proof.
  pose proof (zoom_in_out_round_trip initialState) as H.
  destruct H as (H1 & H2); [unfold inZoomRange; cbn; lra |].
  split; [apply H1 | apply H2]; cbn; lra.
Defined.

Section ZoomLabel.
Implicit Types (v : R).

Lemma Math_round_bounds v (lo hi : Z) :
  IZR lo <= v <= IZR hi → (lo ≤ Math_round v ≤ hi)%Z.
Proof.
  intros [Hlo Hhi]. unfold Math_round, Int_part.
  destruct (archimed (v + 0.5)) as [Hup Hdown].
  split.
  - assert (IZR lo < IZR (up (v + 0.5))) as H%lt_IZR by lra. lia.
  - assert (IZR (up (v + 0.5)) < IZR (hi + 2)) as H%lt_IZR
      by (rewrite plus_IZR; lra).
    lia.
Qed.

Lemma Math_round_integer (k : Z) : Math_round (IZR k) = k.
Proof.
  unfold Math_round, Int_part.
  destruct (archimed (IZR k + 0.5)) as [Hup Hdown].
  assert (IZR k < IZR (up (IZR k + 0.5))) as H1%lt_IZR by lra.
  assert (IZR (up (IZR k + 0.5)) < IZR (k + 2)) as H2%lt_IZR
    by (rewrite plus_IZR; lra).
  lia.
Qed.
End ZoomLabel.

(** X8: the percentage shown between the zoom buttons is always between
    30 and 300, whatever the user has done since the component was
    mounted; it reads 100 after a fit. *)
Theorem zoom_label_bounds :
  (∀ evs, (30 ≤ zoomLabel (run evs initialState) ≤ 300)%Z) ∧
  (∀ s, zoomLabel (handleFit s) = 100%Z).
Proof.
  split.
  - intros evs. unfold zoomLabel. apply Math_round_bounds.
    assert (H : inZoomRange (scale (run evs initialState)))
      by (apply run_in_range; unfold inZoomRange; cbn; lra).
    destruct H. lra.
  - intros s. unfold zoomLabel. cbn [handleFit setPosition setScale scale].
    replace (1 * 100) with (IZR 100) by lra. apply Math_round_integer.
Qed.

(** ** Fit, zoom and the offset *)

(** X9: after a fit the canvas shows every graph point at its own
    coordinates, whatever zooming and panning came before; fitting twice
    is fitting once; a fit leaves the graph and the selection alone. *)
Theorem fit_resets_view (evs : list Event) (s : ViewerState) (p : Point.t) :
  toScreen (handleFit (run evs s)) p = p ∧
  handleFit (handleFit s) = handleFit s ∧
  graphData (handleFit s) = graphData s ∧
  selectedNode (handleFit s) = selectedNode s.
Proof.
  split; [|done]. rewrite toScreen_formula. destruct p as [px py].
  cbn. f_equal; lra.
Qed.

(** X10: the zoom buttons change the scale and nothing else: the offset,
    the drag in progress, the graph and the selection stay, so the point
    at the transform origin keeps its place on the screen, and zooming
    commutes with a move of the pointer. *)
Theorem zoom_keeps_offset (s : ViewerState) (e : MouseEvent) :
  handleZoomIn s = setScale (λ _, scale (handleZoomIn s)) s ∧
  handleZoomOut s = setScale (λ _, scale (handleZoomOut s)) s ∧
  toScreen (handleZoomIn s) origin = toScreen s origin ∧
  toScreen (handleZoomOut s) origin = toScreen s origin ∧
  handleZoomIn (handleMouseMove e s) = handleMouseMove e (handleZoomIn s) ∧
  handleZoomOut (handleMouseMove e s) = handleMouseMove e (handleZoomOut s).
Proof.
  split; [done | split; [done |]].
  rewrite !toScreen_formula. cbn.
  split; [f_equal; lra | split; [f_equal; lra |]].
  unfold handleMouseMove.
  change (isDragging (handleZoomIn s)) with (isDragging s).
  change (isDragging (handleZoomOut s)) with (isDragging s).
  by destruct (isDragging s).
Qed.

(** ** Dragging further *)

Section Drag.
Implicit Types (e : MouseEvent) (s : ViewerState) (moves : list MouseEvent).

Lemma moveThrough_snoc moves e s :
  moveThrough (moves ++ [e]) s = handleMouseMove e (moveThrough moves s).
Proof. unfold moveThrough. by rewrite fold_left_app. Qed.

(** Moves change the offset only. *)
Lemma moveThrough_frame moves s :
  isDragging (moveThrough moves s) = isDragging s ∧
  dragStart (moveThrough moves s) = dragStart s ∧
  scale (moveThrough moves s) = scale s ∧
  graphData (moveThrough moves s) = graphData s.
Proof.
  revert s. induction moves as [|e moves IH]; intros s; [repeat split |].
  change (moveThrough (e :: moves) s)
    with (moveThrough moves (handleMouseMove e s)).
  destruct (IH (handleMouseMove e s)) as (-> & -> & -> & ->).
  unfold handleMouseMove. destruct (isDragging s) eqn:Hd; cbn; auto.
Qed.

Lemma moveThrough_idle moves s :
  isDragging s = false → moveThrough moves s = s.
Proof.
  revert s. induction moves as [|e moves IH]; intros s H; [done |].
  change (moveThrough (e :: moves) s)
    with (moveThrough moves (handleMouseMove e s)).
  rewrite (handleMouseMove_idle e s H). by apply IH.
Qed.

Lemma handleMouseDown_frame e0 s :
  onCanvas e0 = true →
  isDragging (handleMouseDown e0 s) = true ∧
  scale (handleMouseDown e0 s) = scale s.
Proof. intros H. by rewrite (handleMouseDown_on_canvas e0 s H). Qed.

Lemma drag_position e0 moves e1 s :
  onCanvas e0 = true →
  position (moveThrough (moves ++ [e1]) (handleMouseDown e0 s)) =
  pointSub (screenPoint e1) (pointSub (screenPoint e0) (position s)).
Proof.
  intros H0. rewrite moveThrough_snoc.
  destruct (moveThrough_frame moves (handleMouseDown e0 s)) as (Hd & Ha & _).
  rewrite (handleMouseDown_on_canvas e0 s H0) in *.
  rewrite handleMouseMove_panning by (rewrite Hd; reflexivity).
  cbn [position setPosition]. by rewrite Ha.
Qed.
End Drag.

(** X11: a drag does not depend on the path of the pointer: after a press
    on the canvas at p0 and any run of moves ending at p1, the offset is
    p1 - (p0 - offset before), which is the old offset moved by p1 - p0,
    whatever the moves in between; the scale is unchanged and the drag
    goes on. *)
Theorem drag_is_path_independent (e0 e1 : MouseEvent)
  (moves : list MouseEvent) (s : ViewerState) :
  onCanvas e0 = true →
  let s' := moveThrough (moves ++ [e1]) (handleMouseDown e0 s) in
  position s' =
    pointSub (screenPoint e1) (pointSub (screenPoint e0) (position s)) ∧
  position s' =
    Point.Build (Point.x (position s) + (clientX e1 - clientX e0))
                (Point.y (position s) + (clientY e1 - clientY e0)) ∧
  scale s' = scale s ∧
  panState s' = Panning.
Proof.
  intros H0. cbv zeta. rewrite (drag_position e0 moves e1 s H0).
  destruct (moveThrough_frame (moves ++ [e1]) (handleMouseDown e0 s))
    as (Hd & _ & Hs & _).
  destruct (handleMouseDown_frame e0 s H0) as (Hd0 & Hs0).
  unfold panState. rewrite Hd, Hs, Hd0, Hs0. repeat split.
  unfold pointSub, screenPoint. cbn. f_equal; lra.
Qed.

Lemma drag_is_path_independent_witness :
  position
    (moveThrough
       ([mkMouseEvent InsideCanvas 50 60; mkMouseEvent InsideCanvas 0 0] ++
        [mkMouseEvent InsideCanvas 15 18])
       (handleMouseDown (mkMouseEvent OnContainer 10 20) initialState)) =
  pointSub (screenPoint (mkMouseEvent InsideCanvas 15 18))
    (pointSub (screenPoint (mkMouseEvent OnContainer 10 20))
       (position initialState)).
Proof.
  apply (drag_is_path_independent (mkMouseEvent OnContainer 10 20)
           (mkMouseEvent InsideCanvas 15 18)
           [mkMouseEvent InsideCanvas 50 60; mkMouseEvent InsideCanvas 0 0]
           initialState).
  reflexivity.
Defined.

(** X12: what is grabbed stays under the pointer: during a drag every
    graph point moves on the screen by exactly as much as the pointer has
    moved since the press, at any zoom scale. *)
Theorem drag_moves_canvas_with_pointer (e0 e1 : MouseEvent)
  (moves : list MouseEvent) (s : ViewerState) (p : Point.t) :
  onCanvas e0 = true →
  pointSub
    (toScreen (moveThrough (moves ++ [e1]) (handleMouseDown e0 s)) p)
    (toScreen s p) =
  pointSub (screenPoint e1) (screenPoint e0).
Proof.
  intros H0. rewrite !toScreen_formula.
  destruct (moveThrough_frame (moves ++ [e1]) (handleMouseDown e0 s))
    as (_ & _ & Hs & _).
  destruct (handleMouseDown_frame e0 s H0) as (_ & Hs0).
  rewrite Hs, Hs0, (drag_position e0 moves e1 s H0).
  unfold pointSub, screenPoint. cbn. f_equal; lra.
Qed.

Lemma drag_moves_canvas_with_pointer_witness :
  pointSub
    (toScreen
       (moveThrough ([mkMouseEvent InsideCanvas 50 60] ++
                     [mkMouseEvent InsideCanvas 15 18])
          (handleMouseDown (mkMouseEvent OnContainer 10 20)
             (handleZoomIn initialState)))
       (Point.Build 220 300))
    (toScreen (handleZoomIn initialState) (Point.Build 220 300)) =
  pointSub (screenPoint (mkMouseEvent InsideCanvas 15 18))
    (screenPoint (mkMouseEvent OnContainer 10 20)).
Proof.
  apply (drag_moves_canvas_with_pointer (mkMouseEvent OnContainer 10 20)
           (mkMouseEvent InsideCanvas 15 18)
           [mkMouseEvent InsideCanvas 50 60]
           (handleZoomIn initialState) (Point.Build 220 300)).
  reflexivity.
Defined.

(** X13: once the button is released (or the pointer has left the
    canvas) no run of moves changes anything, and a press followed at once
    by a release leaves the offset where it was: a click does not pan. *)
Theorem released_pointer_does_not_pan (e0 : MouseEvent)
  (moves : list MouseEvent) (s : ViewerState) :
  moveThrough moves (handleMouseUp s) = handleMouseUp s ∧
  moveThrough moves (step s MouseLeave) = step s MouseLeave ∧
  position (handleMouseUp (handleMouseDown e0 s)) = position s ∧
  panState (handleMouseUp (handleMouseDown e0 s)) = Idle.
Proof.
  split; [by apply moveThrough_idle |]. split; [by apply moveThrough_idle |].
  unfold handleMouseDown. by destruct (onCanvas e0).
Qed.

(** ** The circle of the layout *)

Section Circle.
Variable containerRef : option Container.
Implicit Types (nodes : list GraphNode.t) (positions : gmap string Point.t).

(** Every point the loop writes is a point of the circle for one of the
    indices it runs through. *)
Lemma placeNodes_values nodeCount index nodes positions (k : string) p :
  placeNodes containerRef nodeCount index nodes positions !! k = Some p →
  (∃ i, (index ≤ i < index + length nodes)%nat ∧
        p = circlePoint containerRef nodeCount i) ∨
  positions !! k = Some p.
Proof.
  revert index positions.
  induction nodes as [|node rest IH]; intros index positions H;
    [by right |].
  cbn [placeNodes] in H. apply IH in H as [(i & Hi & ->)|H].
  - left. exists i. cbn [length]. split; [lia | reflexivity].
  - destruct (decide (GraphNode.id node = k)) as [<-|Hne].
    + rewrite lookup_insert_eq in H. injection H as <-.
      left. exists index. cbn [length]. split; [lia | reflexivity].
    + rewrite lookup_insert_ne in H by exact Hne. by right.
Qed.

Lemma calculateNodePositions_value (g : GraphData.t) (k : string) p :
  calculateNodePositions containerRef g !! k = Some p →
  ∃ i, (i < length (GraphData.nodes g))%nat ∧
       p = circlePoint containerRef (length (GraphData.nodes g)) i.
Proof.
  unfold calculateNodePositions. intros H.
  apply placeNodes_values in H as [(i & Hi & ->)|H].
  - exists i. split; [lia | reflexivity].
  - by rewrite lookup_empty in H.
Qed.

Lemma placeNodes_size nodeCount index nodes positions :
  (size (placeNodes containerRef nodeCount index nodes positions) ≤
   size positions + length nodes)%nat.
Proof.
  revert index positions.
  induction nodes as [|node rest IH]; intros index positions;
    cbn [placeNodes length]; [lia |].
  etrans; [apply IH |].
  destruct (positions !! GraphNode.id node) as [p|] eqn:Hp.
  - rewrite map_size_insert_Some by eauto. lia.
  - rewrite map_size_insert_None by exact Hp. lia.
Qed.

Lemma circlePoint_on_circle nodeCount i :
  let p := circlePoint containerRef nodeCount i in
  (Point.x p - Point.x (layoutCenter containerRef)) ^ 2 +
  (Point.y p - Point.y (layoutCenter containerRef)) ^ 2 =
  layoutRadius containerRef ^ 2.
Proof.
  cbv zeta. unfold circlePoint, layoutCenter, layoutRadius.
  cbn [Point.x Point.y].
  set (a := 2 * PI * INR i / INR nodeCount).
  set (r := Rmin (layoutWidth containerRef) (layoutHeight containerRef) * 0.3).
  pose proof (sin2_cos2 a) as H. unfold Rsqr in H.
  replace ((layoutWidth containerRef / 2 + r * cos a -
            layoutWidth containerRef / 2) ^ 2 +
           (layoutHeight containerRef / 2 + r * sin a -
            layoutHeight containerRef / 2) ^ 2)
    with (r ^ 2 * (sin a * sin a + cos a * cos a)) by ring.
  rewrite H. ring.
Qed.

Lemma orDefault_pos (n : option Z) (fallback : Z) :
  (0 < fallback)%Z → (∀ v, n = Some v → (0 ≤ v)%Z) →
  (0 < orDefault n fallback)%Z.
Proof.
  intros Hf Hn. unfold orDefault. destruct n as [v|]; [|exact Hf].
  specialize (Hn v eq_refl). destruct (decide (v = 0%Z)); lia.
Qed.

Lemma layout_sizes_pos :
  validContainer containerRef →
  0 < layoutWidth containerRef ∧ 0 < layoutHeight containerRef.
Proof.
  intros Hv. unfold layoutWidth, layoutHeight.
  split; apply IZR_lt, orDefault_pos; try lia;
    destruct containerRef as [c|]; cbn; intros v Hc; try discriminate;
    injection Hc as <-; destruct Hv; assumption.
Qed.

Lemma layoutRadius_bounds :
  validContainer containerRef →
  0 < layoutRadius containerRef ∧
  layoutRadius containerRef <= 0.3 * layoutWidth containerRef ∧
  layoutRadius containerRef <= 0.3 * layoutHeight containerRef.
Proof.
  intros Hv. destruct (layout_sizes_pos Hv) as [Hw Hh].
  unfold layoutRadius, Rmin.
  destruct (Rle_dec (layoutWidth containerRef) (layoutHeight containerRef));
    lra.
Qed.

Lemma circlePoint_inside nodeCount i :
  validContainer containerRef →
  let p := circlePoint containerRef nodeCount i in
  0.2 * layoutWidth containerRef <= Point.x p <=
    0.8 * layoutWidth containerRef ∧
  0.2 * layoutHeight containerRef <= Point.y p <=
    0.8 * layoutHeight containerRef.
Proof.
  intros Hv. cbv zeta. destruct (layoutRadius_bounds Hv) as (Hr & Hrw & Hrh).
  unfold circlePoint. cbn [Point.x Point.y]. fold (layoutRadius containerRef).
  set (a := 2 * PI * INR i / INR nodeCount).
  set (r := layoutRadius containerRef) in *.
  pose proof (COS_bound a) as [Hc1 Hc2].
  pose proof (SIN_bound a) as [Hs1 Hs2].
  assert (- r <= r * cos a <= r) by nra.
  assert (- r <= r * sin a <= r) by nra.
  lra.
Qed.
End Circle.

Section Angles.
Implicit Types (n i j : nat).

(** Two different slots of the circle are different directions. *)
Lemma slots_differ_lt n i j :
  (i < j < n)%nat →
  ¬ (cos (2 * PI * INR i / INR n) = cos (2 * PI * INR j / INR n) ∧
     sin (2 * PI * INR i / INR n) = sin (2 * PI * INR j / INR n)).
Proof.
  intros [Hij Hjn] [Hc Hs].
  assert (Hi : 0 <= INR i) by apply pos_INR.
  assert (Hij' : INR i < INR j) by (by apply lt_INR).
  assert (Hjn' : INR j < INR n) by (by apply lt_INR).
  assert (Hn : 0 < INR n) by lra.
  pose proof PI_RGT_0 as Hpi.
  set (h := PI * (INR j - INR i) / INR n).
  assert (Hh0 : 0 < h).
  { unfold h. apply Rdiv_lt_0_compat; [nra | exact Hn]. }
  assert (Hh1 : h < PI).
  { unfold h. apply Rmult_lt_reg_r with (INR n); [exact Hn |].
    unfold Rdiv. rewrite Rmult_assoc, Rinv_l by lra. nra. }
  pose proof (sin_gt_0 h Hh0 Hh1) as Hsin.
  assert (Hd : cos (2 * h) = 1).
  { replace (2 * h)
      with (2 * PI * INR j / INR n - 2 * PI * INR i / INR n)
      by (unfold h; field; lra).
    rewrite cos_minus, <- Hc, <- Hs.
    pose proof (sin2_cos2 (2 * PI * INR i / INR n)) as H.
    unfold Rsqr in H. lra. }
  rewrite cos_2a_sin in Hd. nra.
Qed.

Lemma slots_differ n i j :
  (i < n)%nat → (j < n)%nat → i ≠ j →
  ¬ (cos (2 * PI * INR i / INR n) = cos (2 * PI * INR j / INR n) ∧
     sin (2 * PI * INR i / INR n) = sin (2 * PI * INR j / INR n)).
Proof.
  intros Hi Hj Hne [Hc Hs].
  destruct (Nat.lt_total i j) as [H|[H|H]]; [| done |].
  - by apply (slots_differ_lt n i j).
  - by apply (slots_differ_lt n j i).
Qed.

Lemma circlePoint_inj containerRef n i j :
  validContainer containerRef →
  (i < n)%nat → (j < n)%nat →
  circlePoint containerRef n i = circlePoint containerRef n j → i = j.
Proof.
  intros Hv Hi Hj Heq. destruct (decide (i = j)) as [|Hne]; [done |].
  exfalso. apply (slots_differ n i j Hi Hj Hne).
  destruct (layoutRadius_bounds containerRef Hv) as (Hr & _).
  unfold circlePoint in Heq. fold (layoutRadius containerRef) in Heq.
  injection Heq as Hx Hy.
  set (r := layoutRadius containerRef) in *.
  split; apply Rmult_eq_reg_l with r; lra.
Qed.

Lemma filter_all {A} (P : A → Prop) `{!∀ a, Decision (P a)} (l : list A) :
  Forall P l → filter P l = l.
Proof.
  induction 1 as [|a l Ha _ IH]; [reflexivity |].
  by rewrite filter_cons_True, IH.
Qed.
End Angles.

Section Reading.
Variable containerRef : option Container.
Implicit Types (positions : gmap string Point.t) (k : string).

Lemma readPosition_written positions k p :
  positions !! k = Some p → readPosition positions k = ReadPoint p.
Proof. intros H. unfold readPosition. by rewrite H. Qed.

Lemma readPosition_node (g : GraphData.t) k :
  k ∈ nodeIds g →
  ∃ p, calculateNodePositions containerRef g !! k = Some p ∧
       readPosition (calculateNodePositions containerRef g) k = ReadPoint p.
Proof.
  intros Hk.
  apply (proj2 (calculateNodePositions_is_Some containerRef g k)) in Hk
    as [p Hp].
  exists p. split; [exact Hp | by apply readPosition_written].
Qed.

Lemma x_not_inherited : "x" ∉ objectPrototypeNames.
Proof.
  apply (proj1 (bool_decide_eq_false ("x" ∈ objectPrototypeNames))).
  reflexivity.
Qed.

Lemma y_not_inherited : "y" ∉ objectPrototypeNames.
Proof.
  apply (proj1 (bool_decide_eq_false ("y" ∈ objectPrototypeNames))).
  reflexivity.
Qed.

Lemma truthy_inherited positions k :
  k ∈ objectPrototypeNames → truthy (readPosition positions k).
Proof.
  intros Hk. unfold readPosition.
  destruct (positions !! k); [exact I |].
  assert (Hx : k ≠ "x") by (intros ->; by apply x_not_inherited).
  assert (Hy : k ≠ "y") by (intros ->; by apply y_not_inherited).
  rewrite (decide_True _ _ Hk).
  destruct (positions !! "__proto__"); [|exact I].
  by rewrite (decide_False _ _ Hx), (decide_False _ _ Hy).
Qed.

Lemma readPosition_ordinary (g : GraphData.t) k :
  k ∉ nodeIds g → k ∉ objectPrototypeNames → "__proto__" ∉ nodeIds g →
  readPosition (calculateNodePositions containerRef g) k = ReadUndefined.
Proof.
  intros Hk Hin Hproto. unfold readPosition.
  rewrite <- (calculateNodePositions_is_Some containerRef) in Hk, Hproto.
  rewrite <- eq_None_not_Some in Hk, Hproto. rewrite Hk, Hproto.
  by rewrite (decide_False _ _ Hin).
Qed.

Lemma truthy_node_id (g : GraphData.t) k :
  k ∈ nodeIds g →
  truthy (readPosition (calculateNodePositions containerRef g) k).
Proof. intros Hk. by destruct (readPosition_node g k Hk) as (p & _ & ->). Qed.
End Reading.

(** X14: reading the record back under the id of a node always yields the
    point written for that id, so no node is ever skipped when the nodes
    are drawn; the record holds no more points than there are nodes.
    Under a key that is no node id the record reads as undefined, unless
    the key is a name that every object inherits, which always passes the
    guard, or a node is called __proto__. *)
Theorem every_node_is_drawn (containerRef : option Container)
  (s : ViewerState) :
  drawnNodes containerRef s = GraphData.nodes (graphData s) ∧
  (∀ k, k ∈ nodeIds (graphData s) →
        ∃ p, nodePositions containerRef s !! k = Some p ∧
             readPosition (nodePositions containerRef s) k = ReadPoint p) ∧
  (∀ k, k ∉ nodeIds (graphData s) →
        k ∉ objectPrototypeNames →
        "__proto__" ∉ nodeIds (graphData s) →
        readPosition (nodePositions containerRef s) k = ReadUndefined) ∧
  (∀ k, k ∈ objectPrototypeNames →
        truthy (readPosition (nodePositions containerRef s) k)) ∧
  (size (nodePositions containerRef s) ≤
   length (GraphData.nodes (graphData s)))%nat.
Proof.
  split; [|split; [|split; [|split]]].
  - unfold drawnNodes. apply filter_all, Forall_forall. intros node Hin.
    apply truthy_node_id, list_elem_of_fmap. eauto.
  - intros k. apply readPosition_node.
  - intros k. apply readPosition_ordinary.
  - intros k. apply truthy_inherited.
  - unfold nodePositions, calculateNodePositions.
    etrans; [apply placeNodes_size |]. by rewrite map_size_empty.
Qed.

Lemma every_node_is_drawn_witness :
  (∃ p, nodePositions None (setGraphData inheritedNameGraph initialState)
          !! "n2" = Some p ∧
        readPosition
          (nodePositions None (setGraphData inheritedNameGraph initialState))
          "n2" = ReadPoint p) ∧
  readPosition
    (nodePositions None (setGraphData inheritedNameGraph initialState))
    "n99" = ReadUndefined ∧
  truthy (readPosition
            (nodePositions None
               (setGraphData inheritedNameGraph initialState))
            "constructor").
Proof.
  pose proof (every_node_is_drawn None
                (setGraphData inheritedNameGraph initialState))
    as (_ & Hnode & Hother & Hinh & _).
  split; [|split].
  - apply Hnode.
    apply (bool_decide_unpack ("n2" ∈ nodeIds inheritedNameGraph)).
    reflexivity.
  - apply Hother.
    + apply (proj1 (bool_decide_eq_false ("n99" ∈ nodeIds inheritedNameGraph))).
      reflexivity.
    + apply (proj1 (bool_decide_eq_false ("n99" ∈ objectPrototypeNames))).
      reflexivity.
    + apply (proj1 (bool_decide_eq_false
                      ("__proto__" ∈ nodeIds inheritedNameGraph))).
      reflexivity.
  - apply Hinh.
    apply (bool_decide_unpack ("constructor" ∈ objectPrototypeNames)).
    reflexivity.
Defined.

(** X15: every node is placed on the circle around the centre of the
    container whose radius is 0.3 times the smaller side; with the sizes a
    browser reports, that puts it inside the container, at least a fifth
    of the width from the left and right edges and a fifth of the height
    from the top and bottom edges. *)
Theorem nodes_lie_on_circle_inside_container
  (containerRef : option Container) (s : ViewerState) (node : GraphNode.t) :
  validContainer containerRef →
  node ∈ GraphData.nodes (graphData s) →
  ∃ p, nodePositions containerRef s !! GraphNode.id node = Some p ∧
       (Point.x p - Point.x (layoutCenter containerRef)) ^ 2 +
       (Point.y p - Point.y (layoutCenter containerRef)) ^ 2 =
         layoutRadius containerRef ^ 2 ∧
       0.2 * layoutWidth containerRef <= Point.x p <=
         0.8 * layoutWidth containerRef ∧
       0.2 * layoutHeight containerRef <= Point.y p <=
         0.8 * layoutHeight containerRef.
Proof.
  intros Hv Hin.
  assert (Hs : is_Some (nodePositions containerRef s !! GraphNode.id node))
    by (apply calculateNodePositions_is_Some, list_elem_of_fmap; eauto).
  destruct Hs as [p Hp]. exists p. split; [exact Hp |].
  apply calculateNodePositions_value in Hp as (i & _ & ->).
  split; [apply circlePoint_on_circle | by apply circlePoint_inside].
Qed.

Lemma nodes_lie_on_circle_inside_container_witness :
  ∃ p, nodePositions (Some (mkContainer 1000 0))
         (setGraphData grownGraph initialState)
         !! GraphNode.id (plainNode "n3") = Some p ∧
       (Point.x p - Point.x (layoutCenter (Some (mkContainer 1000 0)))) ^ 2 +
       (Point.y p - Point.y (layoutCenter (Some (mkContainer 1000 0)))) ^ 2 =
         layoutRadius (Some (mkContainer 1000 0)) ^ 2 ∧
       0.2 * layoutWidth (Some (mkContainer 1000 0)) <= Point.x p <=
         0.8 * layoutWidth (Some (mkContainer 1000 0)) ∧
       0.2 * layoutHeight (Some (mkContainer 1000 0)) <= Point.y p <=
         0.8 * layoutHeight (Some (mkContainer 1000 0)).
Proof.
  apply (nodes_lie_on_circle_inside_container (Some (mkContainer 1000 0))
           (setGraphData grownGraph initialState) (plainNode "n3")).
  - cbn. lia.
  - cbn. apply elem_of_cons; right. apply elem_of_cons; right. by left.
Defined.

(** X16: with distinct ids and the sizes a browser reports, no two nodes
    are placed on the same point. *)
Theorem distinct_nodes_do_not_overlap (containerRef : option Container)
  (s : ViewerState) (i j : nat) (a b : GraphNode.t) :
  validContainer containerRef →
  NoDup (nodeIds (graphData s)) →
  GraphData.nodes (graphData s) !! i = Some a →
  GraphData.nodes (graphData s) !! j = Some b →
  i ≠ j →
  nodePositions containerRef s !! GraphNode.id a ≠
  nodePositions containerRef s !! GraphNode.id b.
Proof.
  intros Hv Hnd Ha Hb Hne. unfold nodePositions.
  rewrite (calculateNodePositions_lookup _ _ i a Hnd Ha).
  rewrite (calculateNodePositions_lookup _ _ j b Hnd Hb).
  intros Heq. injection Heq as Heq. apply Hne.
  apply (circlePoint_inj containerRef
           (length (GraphData.nodes (graphData s))) i j Hv).
  - by apply lookup_lt_Some in Ha.
  - by apply lookup_lt_Some in Hb.
  - unfold circlePoint. congruence.
Qed.

Lemma distinct_nodes_do_not_overlap_witness :
  nodePositions None (setGraphData grownGraph initialState)
    !! GraphNode.id (plainNode "n1") ≠
  nodePositions None (setGraphData grownGraph initialState)
    !! GraphNode.id (plainNode "n4").
Proof.
  apply (distinct_nodes_do_not_overlap None
           (setGraphData grownGraph initialState) 0 3
           (plainNode "n1") (plainNode "n4")).
  - exact I.
  - apply (bool_decide_unpack (NoDup (nodeIds grownGraph))). reflexivity.
  - reflexivity.
  - reflexivity.
  - lia.
Defined.

(** X17: when an id occurs more than once in the node list, its position
    is the one computed for its last occurrence: every node carrying that
    id is drawn on that one point. *)
Theorem repeated_id_takes_last_slot (containerRef : option Container)
  (s : ViewerState) (j : nat) (node : GraphNode.t) :
  GraphData.nodes (graphData s) !! j = Some node →
  GraphNode.id node ∉
    GraphNode.id <$> drop (S j) (GraphData.nodes (graphData s)) →
  ∀ node', node' ∈ GraphData.nodes (graphData s) →
           GraphNode.id node' = GraphNode.id node →
           nodePositions containerRef s !! GraphNode.id node' =
           Some (circlePoint containerRef
                   (length (GraphData.nodes (graphData s))) j).
Proof.
  intros Hj Hlast node' _ ->. unfold nodePositions, calculateNodePositions.
  rewrite (placeNodes_last _ _ 0 _ _ j node); [reflexivity | exact Hj |].
  intros j' node'' Hlt Hj' Heq. apply Hlast.
  apply list_elem_of_fmap. exists node''. split; [done |].
  apply list_elem_of_lookup. exists (j' - S j)%nat.
  rewrite lookup_drop. by replace (S j + (j' - S j))%nat with j' by lia.
Qed.

Lemma repeated_id_takes_last_slot_witness :
  nodePositions None (setGraphData repeatedIdGraph initialState)
    !! GraphNode.id (plainNode "n1") =
  Some (circlePoint None 3 2).
Proof.
  apply (repeated_id_takes_last_slot None
           (setGraphData repeatedIdGraph initialState) 2
           (GraphNode.Build "n1" "team" "again" []) eq_refl).
  - cbn. intros H. by apply elem_of_nil in H.
  - by left.
  - reflexivity.
Defined.

(** ** Spinner, banner and placeholder *)

Section Overlays.
Implicit Types (s : ViewerState) (ev : Event) (evs : list Event).

Lemma step_quiet s ev :
  error s = None ∨ loading s = false →
  error (step s ev) = None ∨ loading (step s ev) = false.
Proof.
  intros H. destruct ev as [| ? [|] | | | | e | e | | | | |]; cbn;
    try (by left); try (by right); try exact H.
  - unfold handleMouseDown. by destruct (onCanvas e).
  - unfold handleMouseMove. by destruct (isDragging s).
Qed.

Lemma run_quiet evs s :
  error s = None ∨ loading s = false →
  error (run evs s) = None ∨ loading (run evs s) = false.
Proof.
  revert s. induction evs as [|ev evs IH]; intros s H; [exact H |].
  rewrite run_cons. by apply IH, step_quiet.
Qed.

Lemma step_in_flight s ev :
  isAnswer ev = false →
  loading s = true ∧ error s = None →
  loading (step s ev) = true ∧ error (step s ev) = None.
Proof.
  intros Hev H. destruct ev as [| | | | | e | e | | | | |]; cbn;
    try discriminate Hev; try exact H; try done.
  - unfold handleMouseDown. by destruct (onCanvas e).
  - unfold handleMouseMove. by destruct (isDragging s).
Qed.
End Overlays.

(** X18: from the call of a load until an answer arrives, the spinner
    stays on and the error stays cleared, whatever the user does in the
    meantime (zoom, drag, select, call further loads); the invitation to
    search is not shown during that time. *)
Theorem in_flight_load_shows_spinner (request : nat) (nodeId : string)
  (depth : nat) (evs : list Event) (s : ViewerState) :
  Forall (λ ev, isAnswer ev = false) evs →
  let s' := run (LoadGraphCalled request nodeId depth :: evs) s in
  showsSpinner s' = true ∧ error s' = None ∧
  showsError s' = false ∧ showsPlaceholder s' = false.
Proof.
  intros H. cbv zeta. rewrite run_cons.
  assert (Hinv : loading (run evs (step s (LoadGraphCalled request nodeId
                                             depth))) = true ∧
                 error (run evs (step s (LoadGraphCalled request nodeId
                                           depth))) = None).
  { generalize (step s (LoadGraphCalled request nodeId depth)),
      (conj eq_refl eq_refl
       : loading (step s (LoadGraphCalled request nodeId depth)) = true ∧
         error (step s (LoadGraphCalled request nodeId depth)) = None).
    induction H as [|ev evs Hev _ IH]; intros s0 H0; [exact H0 |].
    rewrite run_cons. by apply IH, step_in_flight. }
  destruct Hinv as [Hl He].
  unfold showsSpinner, showsPlaceholder, showsError. rewrite Hl, He.
  repeat split. by rewrite andb_false_r.
Qed.

Lemma in_flight_load_shows_spinner_witness :
  showsSpinner
    (run (LoadGraphCalled 1 "n1" 2 ::
          [ZoomInClicked; NodeClicked (plainNode "n1");
           LoadGraphCalled 2 "n2" 2; MouseUp])
       (loadGraph (Rejected ThrownOther) initialState)) = true.
Proof.
  apply (in_flight_load_shows_spinner 1 "n1" 2
           [ZoomInClicked; NodeClicked (plainNode "n1");
            LoadGraphCalled 2 "n2" 2; MouseUp]
           (loadGraph (Rejected ThrownOther) initialState)).
  repeat constructor.
Defined.

(** X19: the spinner and the error banner are never on the screen
    together, in any state the component can reach; when the invitation to
    search is shown, neither of them is, and no node is drawn.  A failed
    load shows a banner exactly when its message is not empty. *)
Theorem overlays_exclude_each_other :
  (∀ evs, let s := run evs initialState in
          ¬ (showsSpinner s = true ∧ showsError s = true)) ∧
  (∀ containerRef s,
     showsPlaceholder s = true →
     showsSpinner s = false ∧ showsError s = false ∧
     drawnNodes containerRef s = []) ∧
  (∀ s err,
     showsError (loadGraph (Rejected err) s) = true ↔
     errorMessage err ≠ EmptyString).
Proof.
  split; [|split].
  - intros evs. cbv zeta. intros [Hl He].
    destruct (run_quiet evs initialState (or_introl eq_refl)) as [H|H].
    + unfold showsError in He. by rewrite H in He.
    + unfold showsSpinner in Hl. congruence.
  - intros containerRef s H. unfold showsPlaceholder in H.
    apply andb_true_iff in H as [H He]. apply andb_true_iff in H as [Hn Hl].
    apply bool_decide_eq_true in Hn. apply negb_true_iff in Hl, He.
    repeat split; [exact Hl | exact He |].
    unfold drawnNodes. apply nil_length_inv in Hn. by rewrite Hn.
  - intros s err. unfold showsError. cbn.
    rewrite negb_true_iff. split.
    + intros H Heq. rewrite Heq in H. discriminate.
    + intros H. apply String.eqb_neq. exact H.
Qed.

Lemma overlays_exclude_each_other_witness :
  showsSpinner initialState = false ∧ showsError initialState = false ∧
  drawnNodes None initialState = [].
Proof.
  pose proof overlays_exclude_each_other as (_ & H & _).
  apply (H None initialState). reflexivity.
Defined.

(** ** Which edges are drawn *)

(** X20: an edge is drawn whenever each of its endpoints is the id of a
    node or a name that every object inherits (constructor, toString and
    the like): the guard lets an edge to such a name through although no
    node carries it.  When no node is called __proto__, an edge that is
    drawn and whose endpoints are not such names has both endpoints among
    the ids of the nodes: a dangling edge to an ordinary id is skipped. *)
Theorem drawn_edges_and_inherited_names (containerRef : option Container)
  (s : ViewerState) (e : GraphEdge.t) :
  (e ∈ GraphData.edges (graphData s) →
   GraphEdge.source e ∈ nodeIds (graphData s) ∨
     GraphEdge.source e ∈ objectPrototypeNames →
   GraphEdge.target e ∈ nodeIds (graphData s) ∨
     GraphEdge.target e ∈ objectPrototypeNames →
   e ∈ drawnEdges containerRef s) ∧
  (e ∈ drawnEdges containerRef s →
   "__proto__" ∉ nodeIds (graphData s) →
   GraphEdge.source e ∉ objectPrototypeNames →
   GraphEdge.target e ∉ objectPrototypeNames →
   e ∈ GraphData.edges (graphData s) ∧
   GraphEdge.source e ∈ nodeIds (graphData s) ∧
   GraphEdge.target e ∈ nodeIds (graphData s)).
Proof.
  unfold drawnEdges, drawable, nodePositions.
  rewrite list_elem_of_filter. split.
  - intros He Hs Ht. split; [split |]; [| | exact He].
    + destruct Hs; [by apply truthy_node_id | by apply truthy_inherited].
    + destruct Ht; [by apply truthy_node_id | by apply truthy_inherited].
  - intros [[Hs Ht] He] Hproto Hsn Htn. split; [exact He |]. split.
    + destruct (decide (GraphEdge.source e ∈ nodeIds (graphData s)))
        as [|Hn]; [done |].
      by rewrite (readPosition_ordinary _ _ _ Hn Hsn Hproto) in Hs.
    + destruct (decide (GraphEdge.target e ∈ nodeIds (graphData s)))
        as [|Hn]; [done |].
      by rewrite (readPosition_ordinary _ _ _ Hn Htn Hproto) in Ht.
Qed.

Lemma drawn_edges_and_inherited_names_witness :
  GraphEdge.Build "e3" "n1" "constructor" "relates" ∈
    drawnEdges None (setGraphData inheritedNameGraph initialState) ∧
  (GraphEdge.Build "e2" "n1" "n99" "relates" ∉
     drawnEdges None (setGraphData inheritedNameGraph initialState)).
Proof.
  split.
  - apply (drawn_edges_and_inherited_names None
             (setGraphData inheritedNameGraph initialState)
             (GraphEdge.Build "e3" "n1" "constructor" "relates")).
    + cbn. apply elem_of_cons; right. apply elem_of_cons; right. by left.
    + left. cbn. by left.
    + right. by left.
  - intros Hd.
    apply (drawn_edges_and_inherited_names None
             (setGraphData inheritedNameGraph initialState)
             (GraphEdge.Build "e2" "n1" "n99" "relates")) in Hd
      as (_ & _ & Ht).
    + revert Ht.
      apply (proj1 (bool_decide_eq_false
                      ("n99" ∈ nodeIds inheritedNameGraph))).
      reflexivity.
    + apply (proj1 (bool_decide_eq_false
                      ("__proto__" ∈ nodeIds inheritedNameGraph))).
      reflexivity.
    + apply (proj1 (bool_decide_eq_false ("n1" ∈ objectPrototypeNames))).
      reflexivity.
    + apply (proj1 (bool_decide_eq_false ("n99" ∈ objectPrototypeNames))).
      reflexivity.
Defined.
